(** * Thoughts (checklist-react): the checklist record operations and the
      storage adapter, embedded from the TypeScript sources.

    Layout: the JavaScript primitives the components rely on, JSON text,
    the record type, the object heap, the storage adapter, the components
    ([Input], [Checklist], [View], [Add], [Edit]) and then the
    properties. *)

From Stdlib Require Import ZArith List String Ascii Bool Lia QArith Qround.
From Stdlib Require Import DecimalString DecimalPos DecimalZ.
Import ListNotations.

Local Open Scope string_scope.
Local Open Scope list_scope.
Local Open Scope Z_scope.

(* ===================================================================== *)
(** ** JavaScript primitives used by the components *)
(* ===================================================================== *)

Module JS.

(** [s.length] used as a condition: the empty string is falsy. *)
Definition nonEmpty (s : string) : bool :=
  match s with EmptyString => false | String _ _ => true end.

(** [Number.prototype.toString] on an integer value (decimal digits,
    a leading minus sign for negative values). *)
Definition toString (n : Z) : string :=
  NilZero.string_of_int (Z.to_int n).

Section Arrays.
Context {A : Type}.

(** [arr.findIndex(pred)]: the first index whose element satisfies
    [pred], or [-1]. *)
Fixpoint findIndex (pred : A -> bool) (arr : list A) : Z :=
  match arr with
  | [] => -1
  | x :: rest =>
      if pred x then 0
      else let i := findIndex pred rest in
           if i <? 0 then -1 else i + 1
  end.

(** [arr[index]]: [None] stands for [undefined]. *)
Definition at_index (arr : list A) (index : Z) : option A :=
  if index <? 0 then None else nth_error arr (Z.to_nat index).

(** [arr.splice(index, 1)]: a negative [index] counts from the end of
    the array (and is clamped at 0); an index past the end removes
    nothing. *)
Fixpoint remove_nth (n : nat) (arr : list A) : list A :=
  match arr, n with
  | [], _ => []
  | _ :: rest, O => rest
  | x :: rest, S n' => x :: remove_nth n' rest
  end.

Definition splice1 (index : Z) (arr : list A) : list A :=
  let len := Z.of_nat (List.length arr) in
  let start := if index <? 0 then Z.max (len + index) 0 else index in
  remove_nth (Z.to_nat start) arr.

(** [arr.push(x)] *)
Definition push (arr : list A) (x : A) : list A := arr ++ [x].
End Arrays.

(** [arr.includes(task)] and [arr.indexOf(task)] on arrays of strings
    (strict equality on strings is equality of contents). *)
Definition includes (arr : list string) (task : string) : bool :=
  existsb (String.eqb task) arr.

Definition indexOf (arr : list string) (task : string) : Z :=
  findIndex (String.eqb task) arr.

(** Truthiness of [arr[index]] for an array of strings: [undefined] and
    the empty string are falsy. *)
Definition truthy (v : option string) : bool :=
  match v with
  | Some s => nonEmpty s
  | None => false
  end.

End JS.

(* ===================================================================== *)
(** ** JSON text: the host's [JSON.stringify] and [JSON.parse] *)
(* ===================================================================== *)

Module JSON.

#[local] Unset Elimination Schemes.

(** The values that the adapter stores.  Numbers are integers, strings
    are sequences of 8-bit characters.  An object is the list of its
    members as written; reading a property takes the last member of
    that name, as [JSON.parse] lets a later duplicate win. *)
Inductive value : Type :=
| Null
| Bool (b : bool)
| Number (n : Z)
| Str (s : string)
| Array (items : list value)
| Object (members : list (string * value)).

#[local] Set Elimination Schemes.

Definition quote : ascii := "034"%char.
Definition backslash : ascii := "\"%char.

Definition hexDigit (n : N) : ascii :=
  match n with
  | 0 => "0" | 1 => "1" | 2 => "2" | 3 => "3" | 4 => "4" | 5 => "5"
  | 6 => "6" | 7 => "7" | 8 => "8" | 9 => "9" | 10 => "a" | 11 => "b"
  | 12 => "c" | 13 => "d" | 14 => "e" | _ => "f"
  end%N%char.

(** How [JSON.stringify] writes one character of a string. *)
Definition escape (c : ascii) : string :=
  let code := N_of_ascii c in
  if Ascii.eqb c quote then String backslash (String quote "")
  else if Ascii.eqb c backslash then String backslash (String backslash "")
  else if (code =? 8)%N then String backslash "b"
  else if (code =? 9)%N then String backslash "t"
  else if (code =? 10)%N then String backslash "n"
  else if (code =? 12)%N then String backslash "f"
  else if (code =? 13)%N then String backslash "r"
  else if (code <? 32)%N then
    String backslash
      (String "u" (String "0" (String "0"
         (String (hexDigit (code / 16)) (String (hexDigit (code mod 16)) "")))))
  else String c "".

Fixpoint escapeAll (s : string) : string :=
  match s with
  | EmptyString => ""
  | String c rest => (escape c ++ escapeAll rest)%string
  end.

Definition stringifyString (s : string) : string :=
  String quote (escapeAll s ++ String quote "")%string.

(** [JSON.stringify(v)], without indentation: the elements of an array
    and the members of an object are separated by commas, in order. *)
Fixpoint stringify (v : value) : string :=
  match v with
  | Null => "null"
  | Bool true => "true"
  | Bool false => "false"
  | Number n => JS.toString n
  | Str s => stringifyString s
  | Array items =>
      let fix more (l : list value) : string :=
        match l with
        | [] => "]"
        | x :: l' => ("," ++ stringify x ++ more l')%string
        end in
      match items with
      | [] => "[]"
      | x :: l => ("[" ++ stringify x ++ more l)%string
      end
  | Object members =>
      let fix more (l : list (string * value)) : string :=
        match l with
        | [] => "}"
        | (k, x) :: l' =>
            ("," ++ stringifyString k ++ ":" ++ stringify x ++ more l')%string
        end in
      match members with
      | [] => "{}"
      | (k, x) :: l =>
          ("{" ++ stringifyString k ++ ":" ++ stringify x ++ more l)%string
      end
  end.

(** The text after the first element of an array, and after the first
    member of an object. *)
Fixpoint moreElements (l : list value) : string :=
  match l with
  | [] => "]"
  | x :: l' => ("," ++ stringify x ++ moreElements l')%string
  end.

Fixpoint moreMembers (l : list (string * value)) : string :=
  match l with
  | [] => "}"
  | (k, x) :: l' =>
      ("," ++ stringifyString k ++ ":" ++ stringify x ++ moreMembers l')%string
  end.

(** *** Reading *)

Definition isWs (c : ascii) : bool :=
  let code := N_of_ascii c in
  ((code =? 32) || (code =? 9) || (code =? 10) || (code =? 13))%N.

Fixpoint skipWs (s : string) : string :=
  match s with
  | String c rest => if isWs c then skipWs rest else s
  | EmptyString => s
  end.

(** After white space, [s] continues with the character [c]: the text
    after it. *)
Definition startsWith (c : ascii) (s : string) : option string :=
  match skipWs s with
  | String c' rest => if Ascii.eqb c' c then Some rest else None
  | EmptyString => None
  end.

Definition hexValue (c : ascii) : option N :=
  let code := N_of_ascii c in
  if ((48 <=? code) && (code <=? 57))%N then Some (code - 48)%N
  else if ((97 <=? code) && (code <=? 102))%N then Some (code - 87)%N
  else if ((65 <=? code) && (code <=? 70))%N then Some (code - 55)%N
  else None.

(** The character that follows a backslash, for the one-letter
    escapes. *)
Definition unescape (e : ascii) : option ascii :=
  if Ascii.eqb e quote then Some quote
  else if Ascii.eqb e backslash then Some backslash
  else if Ascii.eqb e "/" then Some "/"%char
  else if Ascii.eqb e "b" then Some "008"%char
  else if Ascii.eqb e "t" then Some "009"%char
  else if Ascii.eqb e "n" then Some "010"%char
  else if Ascii.eqb e "f" then Some "012"%char
  else if Ascii.eqb e "r" then Some "013"%char
  else None.

Definition consChar (c : ascii) (r : option (string * string))
  : option (string * string) :=
  match r with
  | Some (str, rest) => Some (String c str, rest)
  | None => None
  end.

(** The characters of a string up to its closing quote, and the text
    after it.  A [\uXXXX] escape above 255 has no 8-bit character and is
    refused, like a raw control character. *)
Fixpoint parseStringBody (s : string) : option (string * string) :=
  match s with
  | EmptyString => None
  | String c rest =>
      if Ascii.eqb c quote then Some ("", rest)
      else if Ascii.eqb c backslash then
        match rest with
        | String e rest' =>
            if Ascii.eqb e "u" then
              match rest' with
              | String h1 (String h2 (String h3 (String h4 rest''))) =>
                  match hexValue h1, hexValue h2, hexValue h3, hexValue h4 with
                  | Some a, Some b, Some c', Some d =>
                      let code := (((a * 16 + b) * 16 + c') * 16 + d)%N in
                      if (code <? 256)%N
                      then consChar (ascii_of_N code) (parseStringBody rest'')
                      else None
                  | _, _, _, _ => None
                  end
              | _ => None
              end
            else
              match unescape e with
              | Some c' => consChar c' (parseStringBody rest')
              | None => None
              end
        | EmptyString => None
        end
      else if (N_of_ascii c <? 32)%N then None
      else consChar c (parseStringBody rest)
  end.

Definition digitOf (c : ascii) : option (Decimal.uint -> Decimal.uint) :=
  match c with
  | "0" => Some Decimal.D0 | "1" => Some Decimal.D1
  | "2" => Some Decimal.D2 | "3" => Some Decimal.D3
  | "4" => Some Decimal.D4 | "5" => Some Decimal.D5
  | "6" => Some Decimal.D6 | "7" => Some Decimal.D7
  | "8" => Some Decimal.D8 | "9" => Some Decimal.D9
  | _ => None
  end%char.

(** The longest run of digits at the head of [s], and what follows. *)
Fixpoint scanDigits (s : string) : Decimal.uint * string :=
  match s with
  | EmptyString => (Decimal.Nil, "")
  | String c rest =>
      match digitOf c with
      | Some d => let (ds, rest') := scanDigits rest in (d ds, rest')
      | None => (Decimal.Nil, s)
      end
  end.

(** A fraction or an exponent would follow the digits. *)
Definition startsFraction (s : string) : bool :=
  match s with
  | String c _ =>
      Ascii.eqb c "." || Ascii.eqb c "e" || Ascii.eqb c "E"
  | EmptyString => false
  end.

(** An integer literal: digits without a leading zero (unless the
    literal is 0 itself).  Literals with a fraction or an exponent are
    not integers and are refused. *)
Definition parseDigits (negative : bool) (s : string)
  : option (value * string) :=
  let (ds, rest) := scanDigits s in
  if Decimal.uint_beq (Decimal.unorm ds) ds && negb (startsFraction rest)
  then Some (Number (Z.of_int (if negative then Decimal.Neg ds
                               else Decimal.Pos ds)), rest)
  else None.

(** [s] starts with [word]: the rest of [s]. *)
Fixpoint expect (word s : string) : option string :=
  match word, s with
  | EmptyString, _ => Some s
  | String a word', String b s' =>
      if Ascii.eqb a b then expect word' s' else None
  | String _ _, EmptyString => None
  end.

Definition literal (word : string) (v : value) (s : string)
  : option (value * string) :=
  match expect word s with
  | Some rest => Some (v, rest)
  | None => None
  end.

(** One value at the head of [s].  [fuel] bounds the nesting and the
    number of elements read; [parse] supplies more than the length of the
    text, and a text holds fewer values than characters. *)
Fixpoint parseValue (fuel : nat) (s : string) : option (value * string) :=
  match fuel with
  | O => None
  | S fuel' =>
      match skipWs s with
      | EmptyString => None
      | String c rest =>
          if Ascii.eqb c "n" then literal "ull" Null rest
          else if Ascii.eqb c "t" then literal "rue" (Bool true) rest
          else if Ascii.eqb c "f" then literal "alse" (Bool false) rest
          else if Ascii.eqb c quote then
            match parseStringBody rest with
            | Some (str, rest') => Some (Str str, rest')
            | None => None
            end
          else if Ascii.eqb c "[" then
            match startsWith "]" rest with
            | Some rest' => Some (Array [], rest')
            | None =>
                match parseElements fuel' rest with
                | Some (items, rest') => Some (Array items, rest')
                | None => None
                end
            end
          else if Ascii.eqb c "{" then
            match startsWith "}" rest with
            | Some rest' => Some (Object [], rest')
            | None =>
                match parseMembers fuel' rest with
                | Some (members, rest') => Some (Object members, rest')
                | None => None
                end
            end
          else if Ascii.eqb c "-" then parseDigits true rest
          else parseDigits false (String c rest)
      end
  end
with parseElements (fuel : nat) (s : string)
  : option (list value * string) :=
  match fuel with
  | O => None
  | S fuel' =>
      match parseValue fuel' s with
      | Some (v, rest) =>
          match startsWith "," rest with
          | Some rest' =>
              match parseElements fuel' rest' with
              | Some (vs, rest'') => Some (v :: vs, rest'')
              | None => None
              end
          | None =>
              match startsWith "]" rest with
              | Some rest' => Some ([v], rest')
              | None => None
              end
          end
      | None => None
      end
  end
with parseMembers (fuel : nat) (s : string)
  : option (list (string * value) * string) :=
  match fuel with
  | O => None
  | S fuel' =>
      match startsWith quote s with
      | Some rest =>
          match parseStringBody rest with
          | Some (k, rest1) =>
              match startsWith ":" rest1 with
              | Some rest2 =>
                  match parseValue fuel' rest2 with
                  | Some (v, rest3) =>
                      match startsWith "," rest3 with
                      | Some rest4 =>
                          match parseMembers fuel' rest4 with
                          | Some (ms, rest5) => Some ((k, v) :: ms, rest5)
                          | None => None
                          end
                      | None =>
                          match startsWith "}" rest3 with
                          | Some rest4 => Some ([(k, v)], rest4)
                          | None => None
                          end
                      end
                  | None => None
                  end
              | None => None
              end
          | None => None
          end
      | None => None
      end
  end.

(** [JSON.parse(text)]: one value and nothing but white space after it;
    [None] is the [SyntaxError]. *)
Definition parse (text : string) : option value :=
  match parseValue (S (String.length text)) text with
  | Some (v, rest) =>
      match skipWs rest with
      | EmptyString => Some v
      | String _ _ => None
      end
  | None => None
  end.

(** [obj[name]] on a parsed object. *)
Fixpoint member (name : string) (members : list (string * value))
  : option value :=
  match members with
  | [] => None
  | (k, v) :: rest =>
      match member name rest with
      | Some later => Some later
      | None => if String.eqb k name then Some v else None
      end
  end.

(** The fuel that reading a value back takes. *)
Fixpoint size (v : value) : nat :=
  match v with
  | Array items =>
      S ((fix sizes (l : list value) : nat :=
            match l with
            | [] => O
            | x :: l' => S (size x + sizes l')
            end) items)
  | Object members =>
      S ((fix sizes (l : list (string * value)) : nat :=
            match l with
            | [] => O
            | (_, x) :: l' => S (size x + sizes l')
            end) members)
  | _ => 1%nat
  end.

Fixpoint sizeElements (l : list value) : nat :=
  match l with
  | [] => O
  | x :: l' => S (size x + sizeElements l')
  end.

Fixpoint sizeMembers (l : list (string * value)) : nat :=
  match l with
  | [] => O
  | (_, x) :: l' => S (size x + sizeMembers l')
  end.

(** What may follow a number: not another digit, nor the start of a
    fraction or an exponent. *)
Definition endsNumber (k : string) : bool :=
  match k with
  | EmptyString => true
  | String c _ =>
      match digitOf c with
      | Some _ => false
      | None => negb (startsFraction k)
      end
  end.

End JSON.

(* ===================================================================== *)
(** ** The record type *)
(* ===================================================================== *)

Module Types.

(** Modelled from the spec: the [ChecklistData] interface of [types.ts],
    which is not among the sources.  The fields are the six the spec
    lists in its data model; they are also the six that the object
    literal of [Add.saveChecklist] fills in.  Numbers are the integers
    the components produce. *)
Record ChecklistData : Type := mkChecklistData {
  complete : bool;
  done : list string;
  id : Z;
  tasks : list string;
  time : Z;
  title : string
}.

(** [Object.assign({}, data, { complete: c, done: d })] *)
Definition assign_complete_done (data : ChecklistData)
           (c : bool) (d : list string) : ChecklistData :=
  {| complete := c; done := d; id := id data; tasks := tasks data;
     time := time data; title := title data |}.

(** [Object.assign({}, data, { tasks: ts, title: t })] *)
Definition assign_tasks_title (data : ChecklistData)
           (ts : list string) (t : string) : ChecklistData :=
  {| complete := complete data; done := done data; id := id data;
     tasks := ts; time := time data; title := t |}.

(** [data.done = d] *)
Definition set_done (data : ChecklistData) (d : list string) : ChecklistData :=
  {| complete := complete data; done := d; id := id data;
     tasks := tasks data; time := time data; title := title data |}.

End Types.
Export Types.

(** The record as the JSON value that [JSON.stringify] sees, and the record
    that a parsed value denotes ([data as ChecklistData]) when it has the
    six fields with the types of the interface. *)
Module Record.

Definition toJSON (data : ChecklistData) : JSON.value :=
  JSON.Object
    [ ("complete", JSON.Bool (complete data));
      ("done", JSON.Array (map JSON.Str (done data)));
      ("id", JSON.Number (id data));
      ("tasks", JSON.Array (map JSON.Str (tasks data)));
      ("time", JSON.Number (time data));
      ("title", JSON.Str (title data)) ].

Definition asBool (v : option JSON.value) : option bool :=
  match v with Some (JSON.Bool b) => Some b | _ => None end.

Definition asNumber (v : option JSON.value) : option Z :=
  match v with Some (JSON.Number n) => Some n | _ => None end.

Definition asString (v : option JSON.value) : option string :=
  match v with Some (JSON.Str s) => Some s | _ => None end.

Fixpoint strings (items : list JSON.value) : option (list string) :=
  match items with
  | [] => Some []
  | item :: rest =>
      match asString (Some item), strings rest with
      | Some s, Some l => Some (s :: l)
      | _, _ => None
      end
  end.

Definition asStrings (v : option JSON.value) : option (list string) :=
  match v with Some (JSON.Array items) => strings items | _ => None end.

Definition fromJSON (v : JSON.value) : option ChecklistData :=
  match v with
  | JSON.Object members =>
      match asBool (JSON.member "complete" members) with
      | Some c =>
      match asStrings (JSON.member "done" members) with
      | Some d =>
      match asNumber (JSON.member "id" members) with
      | Some i =>
      match asStrings (JSON.member "tasks" members) with
      | Some ts =>
      match asNumber (JSON.member "time" members) with
      | Some tm =>
      match asString (JSON.member "title" members) with
      | Some t =>
          Some {| complete := c; done := d; id := i; tasks := ts;
                  time := tm; title := t |}
      | None => None end
      | None => None end
      | None => None end
      | None => None end
      | None => None end
      | None => None end
  | _ => None
  end.

End Record.

(* ===================================================================== *)
(** ** Objects shared between components *)
(* ===================================================================== *)

(** A checklist record is one JavaScript object that the landing list, the
    slide ([props.data]) and the [Checklist] component ([props.data] and
    [state.data]) all point to.  The heap maps a reference to the current
    contents of the object it denotes; a mutation through one reference is
    seen through every other one.  The arrays inside a record are kept by
    value: the handlers below never change an array in place while two
    records that are still in use share it. *)
Definition ref : Type := nat.
Definition heap : Type := ref -> ChecklistData.

Definition deref (h : heap) (p : ref) : ChecklistData := h p.

Definition assign (h : heap) (p : ref) (v : ChecklistData) : heap :=
  fun q => if Nat.eqb q p then v else h q.

(** What a handler asks of the outside world, in the order it asks: the
    calls to the storage adapter and the callbacks passed down by [App]. *)
Inductive effect : Type :=
| StorageSet (key : string) (value : ChecklistData)
| StorageDelete (key : string)
| OnRefresh (data : option ChecklistData)
| OnBack
| OnMessage (message : string).

(** The storage writes among a handler's effects. *)
Definition writes (es : list effect) : list (string * ChecklistData) :=
  flat_map (fun e => match e with
                     | StorageSet k v => [(k, v)]
                     | _ => []
                     end) es.

(* ===================================================================== *)
(** ** The storage adapter *)
(* ===================================================================== *)

Module LocalStorage.

(** Modelled from the spec: the host's persistent key-value store, the
    adapter's only boundary (get, set, delete and enumerate primitives,
    synchronous and always available: a write always goes through, the
    host's write-capacity error is outside the model).  Entries are kept
    in the order in which their keys were first written, which is the
    order of enumeration. *)
Definition store : Type := list (string * string).

Definition empty : store := [].

(** The host's [getItem(key)]: the value stored under [key], if any. *)
Fixpoint getItem (key : string) (s : store) : option string :=
  match s with
  | [] => None
  | (k, v) :: rest => if String.eqb k key then Some v else getItem key rest
  end.

(** The host's [setItem(key, value)]: the entry of [key] is replaced
    where it stands, or added at the end. *)
Fixpoint setItem (key value : string) (s : store) : store :=
  match s with
  | [] => [(key, value)]
  | (k, v) :: rest =>
      if String.eqb k key then (key, value) :: rest
      else (k, v) :: setItem key value rest
  end.

(** The host's [removeItem(key)]: no entry of [key] is left. *)
Definition removeItem (key : string) (s : store) : store :=
  filter (fun entry => negb (String.eqb (fst entry) key)) s.

(** The host's enumeration of its keys. *)
Definition keys (s : store) : list string := map fst s.

End LocalStorage.

Module Storage.

(** How a deferred result settles. *)
Inductive outcome (A : Type) : Type :=
| Resolved (result : A)
| Rejected (error : string).
Arguments Resolved {A} result.
Arguments Rejected {A} error.

(** [key] without the leading [prefix], when it begins with it. *)
Fixpoint stripPrefix (prefix key : string) : option string :=
  match prefix, key with
  | EmptyString, _ => Some key
  | String a prefix', String b key' =>
      if Ascii.eqb a b then stripPrefix prefix' key' else None
  | String _ _, EmptyString => None
  end.

Section Adapter.
(** The namespace given at construction. *)
Variable namespace : string.

(** Modelled from the spec: the key [<namespace>-<key>] under which
    the adapter of [storage.ts] (not among the sources) keeps an
    entry. *)
Definition storageKey (key : string) : string :=
  (namespace ++ "-" ++ key)%string.

(** Modelled from the spec: [get(key)] of [storage.ts]: looks up
    [<namespace>-<key>]; if present, parses the stored string as JSON
    and resolves with the parsed value (a parse error is passed on to
    the caller); if absent, resolves with no value. *)
Definition get (key : string) (s : LocalStorage.store)
  : outcome (option JSON.value) :=
  match LocalStorage.getItem (storageKey key) s with
  | Some text =>
      match JSON.parse text with
      | Some v => Resolved (Some v)
      | None => Rejected "SyntaxError"
      end
  | None => Resolved None
  end.

(** Modelled from the spec: [set(key, value)] of [storage.ts]:
    JSON-serializes [value] and writes it under [<namespace>-<key>];
    resolves with no payload. *)
Definition set (key : string) (value : JSON.value)
           (s : LocalStorage.store)
  : LocalStorage.store * outcome unit :=
  (LocalStorage.setItem (storageKey key) (JSON.stringify value) s,
   Resolved tt).

(** Modelled from the spec: [delete(key)] of [storage.ts]: removes
    [<namespace>-<key>]; resolves regardless of prior existence. *)
Definition delete (key : string) (s : LocalStorage.store)
  : LocalStorage.store * outcome unit :=
  (LocalStorage.removeItem (storageKey key) s, Resolved tt).

(** Modelled from the spec: [keys()] of [storage.ts]: scans all keys
    of the store, keeps those beginning with [<namespace>-], strips
    the prefix and resolves with the suffixes, in the store's
    order. *)
Definition keys (s : LocalStorage.store) : outcome (list string) :=
  Resolved
    (flat_map (fun k => match stripPrefix (namespace ++ "-") k with
                        | Some suffix => [suffix]
                        | None => []
                        end)
              (LocalStorage.keys s)).

(** A call that changes the store, and a sequence of them. *)
Inductive call : Type :=
| SetCall (key : string) (value : JSON.value)
| DeleteCall (key : string).

Definition perform (c : call) (s : LocalStorage.store)
  : LocalStorage.store :=
  match c with
  | SetCall key value => fst (set key value s)
  | DeleteCall key => fst (delete key s)
  end.

Definition performAll (calls : list call) (s : LocalStorage.store)
  : LocalStorage.store :=
  fold_left (fun s' c => perform c s') calls s.
End Adapter.

Arguments SetCall key value : clear implicits.
Arguments DeleteCall key : clear implicits.

End Storage.

(* ===================================================================== *)
(** ** The [Input] component *)
(* ===================================================================== *)

Module Input.

(** The props of an [<Input>] element.  [onRemove] is always passed by
    [Checklist]; [onComplete] only by [insertInputs], so it is a flag. *)
Record Props : Type := mkProps {
  key : Z;
  id : Z;
  value : option string;
  mode : string;
  focus : bool;
  checked : option bool;
  isRemovable : bool;
  onComplete : bool
}.

(** [render]: [this.props.mode === 'edit'] selects the edit template (the
    text field and, when removable, the remove button); any other mode
    selects the view template (the checkbox). *)
Definition editMode (mode : string) : bool := String.eqb mode "edit".

(** [this.props.value] used as a condition. *)
Definition valueTruthy (p : Props) : bool := JS.truthy (value p).

(** The text of the rendered field while the user has not typed in it:
    [defaultValue={this.props.value}]. *)
Definition defaultValue (p : Props) : string :=
  match value p with Some v => v | None => "" end.

(** [completeTask]: the task handed to the parent's [onComplete], if the
    handler was passed and the value is truthy; otherwise no call. *)
Definition completeTask (p : Props) : option string :=
  if onComplete p && valueTruthy p then value p else None.

(** [removeInput]: the arguments handed to the parent's [onRemove];
    [state_value] is the current text of the field. *)
Definition removeInput (p : Props) (state_value : string) : Z * string :=
  (id p, state_value).

End Input.

(* ===================================================================== *)
(** ** The [Checklist] component *)
(* ===================================================================== *)

Module Checklist.

(** The props ([data], [mode]), the instance fields ([createdInputs],
    [inputElements], [title]) and the state of a [Checklist]; its refs to
    DOM elements and its own adapter are not part of it. *)
Record component : Type := mkComponent {
  props_data : option ref;
  props_mode : string;
  createdInputs : Z;
  inputElements : list Input.Props;
  title : string;
  state_data : option ref;
  state_inputElements : list Input.Props;
  state_titleTouched : bool
}.

Definition with_inputs (c : component) (created : Z)
           (field st : list Input.Props) : component :=
  {| props_data := props_data c; props_mode := props_mode c;
     createdInputs := created; inputElements := field;
     title := title c; state_data := state_data c;
     state_inputElements := st;
     state_titleTouched := state_titleTouched c |}.

Definition with_state_data (c : component) (d : option ref) : component :=
  {| props_data := props_data c; props_mode := props_mode c;
     createdInputs := createdInputs c; inputElements := inputElements c;
     title := title c; state_data := d;
     state_inputElements := state_inputElements c;
     state_titleTouched := state_titleTouched c |}.

(** The constructor: field initialisers, then the title is taken from
    the record when there is one. *)
Definition constructor (data : option ref) (mode : string) (h : heap)
  : component :=
  {| props_data := data; props_mode := mode;
     createdInputs := 0; inputElements := [];
     title := match data with
              | Some p => Types.title (deref h p)
              | None => ""
              end;
     state_data := None; state_inputElements := [];
     state_titleTouched := false |}.

(** [updateTitle] *)
Definition updateTitle (text : string) (c : component) : component :=
  {| props_data := props_data c; props_mode := props_mode c;
     createdInputs := createdInputs c; inputElements := inputElements c;
     title := text; state_data := state_data c;
     state_inputElements := state_inputElements c;
     state_titleTouched := true |}.

(** [titleHasError] *)
Definition titleHasError (c : component) : bool :=
  state_titleTouched c && negb (JS.nonEmpty (title c)).

(** [render]: the edit template, with the title field and the add button,
    when [this.props.mode === 'edit']; the view template otherwise. *)
Definition rendersEdit (c : component) : bool :=
  Input.editMode (props_mode c).

(** [focusAddButton]: [this.addTaskRef.current!.focus()].  The ref is set
    only where the add button is rendered; elsewhere it is [null] and the
    call throws ([false]). *)
Definition focusAddButton (c : component) : bool := rendersEdit c.

(** [isComplete] *)
Definition isComplete (task : string) (c : component) (h : heap) : bool :=
  match props_data c with
  | Some p => JS.includes (done (deref h p)) task
  | None => false
  end.

(** [createInput] *)
Definition createInput (focus : bool) (c : component) : component :=
  let field := state_inputElements c in
  let created := createdInputs c + 1 in
  with_inputs c created field
    (field ++ [ {| Input.key := created; Input.id := created;
                   Input.value := None; Input.mode := props_mode c;
                   Input.focus := focus; Input.checked := None;
                   Input.isRemovable := true;
                   Input.onComplete := false |} ]).

(** The loop of [insertInputs]: one element per task, numbered by the
    running counter. *)
Fixpoint insertLoop (ts : list string) (created : Z)
         (acc : list Input.Props) (c : component) (h : heap)
  : Z * list Input.Props :=
  match ts with
  | [] => (created, acc)
  | task :: rest =>
      let created' := created + 1 in
      insertLoop rest created'
        (acc ++ [ {| Input.key := created'; Input.id := created';
                     Input.value := Some task;
                     Input.mode := props_mode c;
                     Input.focus := false;
                     Input.checked := Some (isComplete task c h);
                     Input.isRemovable :=
                       String.eqb (props_mode c) "edit";
                     Input.onComplete := true |} ])
        c h
  end.

(** [insertInputs] *)
Definition insertInputs (c : component) (h : heap) : component :=
  match props_data c with
  | Some p =>
      let '(created, els) :=
        insertLoop (tasks (deref h p)) (createdInputs c) [] c h in
      with_inputs c created els els
  | None => c
  end.

(** [removeInput]: nothing happens unless more than one input is shown;
    otherwise the elements with the given id are dropped, the add button
    is focused (the handler ends there if that throws) and, when the
    component holds a record, the first occurrence of [task] is spliced
    out of its [done] array, in place. *)
Definition removeInput (id : Z) (task : string) (c : component) (h : heap)
  : component * heap :=
  let field := state_inputElements c in
  if (1 <? Z.of_nat (List.length field)) then
    let field' :=
      filter (fun elem => negb (Input.id elem =? id)) field in
    let created := createdInputs c - 1 in
    let created := if created <? 1 then 1 else created in
    let c' := with_inputs c created field' field' in
    if focusAddButton c' then
      match state_data c' with
      | Some p =>
          let currentData := deref h p in
          if JS.includes (done currentData) task then
            let index := JS.indexOf (done currentData) task in
            let currentData' :=
              set_done currentData (JS.splice1 index (done currentData)) in
            (with_state_data c' (Some p), assign h p currentData')
          else (c', h)
      | None => (c', h)
      end
    else (c', h)
  else
    (with_inputs c (createdInputs c) field (state_inputElements c), h).

(** [completeTask]: the record is changed in place and then written to
    storage under its id. *)
Definition completeTask (task : string) (c : component) (h : heap)
  : component * heap * list effect :=
  match state_data c with
  | Some p =>
      let currentData := deref h p in
      let completedTasks := done currentData in
      let index :=
        JS.findIndex (fun value => String.eqb value task) completedTasks in
      let completedTasks' :=
        if JS.truthy (JS.at_index completedTasks index)
        then JS.splice1 index completedTasks
        else JS.push completedTasks task in
      let currentData' := set_done currentData completedTasks' in
      (with_state_data c (Some p),
       assign h p currentData',
       [StorageSet (JS.toString (id currentData')) currentData'])
  | None => (c, h, [])
  end.

(** [componentDidMount] *)
Definition componentDidMount (c : component) (h : heap) : component :=
  match props_data c with
  | Some p => insertInputs (with_state_data c (Some p)) h
  | None => createInput false c
  end.

(** A mounted component: constructed, then [componentDidMount]. *)
Definition mount (data : option ref) (mode : string) (h : heap)
  : component :=
  componentDidMount (constructor data mode h) h.

End Checklist.

(* ===================================================================== *)
(** ** The [View] slide *)
(* ===================================================================== *)

Module View.

(** [setAsComplete]; [data] is [this.props.data]. *)
Definition setAsComplete (data : ref) (h : heap) : list effect :=
  let currentData := deref h data in
  let updateData :=
    assign_complete_done (deref h data) true (tasks (deref h data)) in
  [ StorageSet (JS.toString (id currentData)) updateData;
    OnRefresh (Some updateData);
    OnBack;
    OnMessage "Checklist set as complete" ].

End View.

(* ===================================================================== *)
(** ** The [Add] slide *)
(* ===================================================================== *)

Module Add.

(** What the browser supplies during one save: the eight 32-bit values
    of [crypto.getRandomValues], the result of [Math.random()] and the
    two readings of [Date.now()]. *)
Record environment : Type := mkEnvironment {
  baseArray : list Z;
  random : Q;
  now_uuid : Z;
  now_time : Z
}.

(** The browser's guarantees on those values. *)
Definition wellFormed (env : environment) : Prop :=
  List.length (baseArray env) = 8%nat /\
  Forall (fun v => 0 <= v < 2 ^ 32) (baseArray env) /\
  (0 <= random env)%Q /\ (random env < 1)%Q.

(** [generateUUID].  [None] stands for [NaN], the result of reading
    outside [baseArray]. *)
Definition generateUUID (env : environment) : option Z :=
  let min := 0 in
  let max := 8 in
  let seed :=
    Qfloor (random env * inject_Z (max - 1 - min) + inject_Z min) in
  match JS.at_index (baseArray env) seed with
  | Some uuid => Some (Z.abs (uuid + now_uuid env))
  | None => None
  end.

(** [saveChecklist]; [checklist] is [this.checklistRef.current] and
    [inputs] the values of the text fields found in the document, in
    document order.  Ids are integers in this model, so the branch of a
    [NaN] id, which a well-formed environment never takes, issues
    nothing. *)
Definition saveChecklist (checklist : option Checklist.component)
           (inputs : list string) (env : environment) : list effect :=
  match checklist with
  | Some c =>
      if JS.nonEmpty (Checklist.title c) then
        let tasks := filter JS.nonEmpty inputs in
        match tasks with
        | _ :: _ =>
            match generateUUID env with
            | Some id =>
                let updateData :=
                  {| complete := false; done := []; id := id;
                     tasks := tasks; time := now_time env;
                     title := Checklist.title c |} in
                [ StorageSet (JS.toString id) updateData;
                  OnRefresh (Some updateData);
                  OnBack;
                  OnMessage "Checklist successfully added" ]
            | None => []
            end
        | [] => []
        end
      else []
  | None => []
  end.

End Add.

(* ===================================================================== *)
(** ** The [Edit] slide *)
(* ===================================================================== *)

Module Edit.

(** [deleteChecklist] *)
Definition deleteChecklist (data : ref) (h : heap) : list effect :=
  [ StorageDelete (JS.toString (id (deref h data)));
    OnRefresh None;
    OnBack;
    OnMessage "Checklist successfully removed" ].

(** [saveChanges]; [data] is [this.props.data], [checklist] is
    [this.checklistRef.current] and [inputs] the values of the text
    fields found in the document. *)
Definition saveChanges (data : ref) (checklist : option Checklist.component)
           (inputs : list string) (h : heap) : list effect :=
  match checklist with
  | Some c =>
      if JS.nonEmpty (Checklist.title c) then
        let tasks := filter JS.nonEmpty inputs in
        match tasks with
        | _ :: _ =>
            let currentData := deref h data in
            let updateData :=
              assign_tasks_title (deref h data) tasks (Checklist.title c) in
            [ StorageSet (JS.toString (id currentData)) updateData;
              OnRefresh (Some updateData);
              OnBack;
              OnMessage "Changes successfully saved" ]
        | [] => []
        end
      else []
  | None => []
  end.

End Edit.

(* ===================================================================== *)
(** ** Sequences of operations on a mounted checklist *)
(* ===================================================================== *)

Module Session.

(** The three handlers of [Checklist] that the buttons and checkboxes
    reach: [createInput] (add a task), [removeInput] (remove a task) and
    [completeTask] (complete a task), with the arguments of the call. *)
Inductive operation : Type :=
| AddTask (focus : bool)
| RemoveTask (id : Z) (task : string)
| CompleteTask (task : string).

Definition step (op : operation) (c : Checklist.component) (h : heap)
  : Checklist.component * heap * list effect :=
  match op with
  | AddTask focus => (Checklist.createInput focus c, h, [])
  | RemoveTask id task =>
      let '(c', h') := Checklist.removeInput id task c h in (c', h', [])
  | CompleteTask task => Checklist.completeTask task c h
  end.

(** What the user does on a rendered checklist: press the add button,
    press the remove button of the [n]-th input shown (whose field reads
    [text] at that moment), tick or untick the checkbox of the [n]-th
    input shown. *)
Inductive event : Type :=
| ClickAdd
| ClickRemove (n : nat) (text : string)
| ClickCheckbox (n : nat).

(** The handler call that an event leads to, if any.  The add button is
    part of the edit template of [Checklist]; an input renders its text
    field, and its remove button when it is removable, in edit mode, its
    checkbox otherwise; [Input.completeTask] and [Input.removeInput]
    decide what is passed on. *)
Definition request (e : event) (c : Checklist.component) : option operation :=
  match e with
  | ClickAdd =>
      if Checklist.rendersEdit c then Some (AddTask true) else None
  | ClickRemove n text =>
      match nth_error (Checklist.state_inputElements c) n with
      | Some el =>
          if Input.editMode (Input.mode el) && Input.isRemovable el
          then let '(id, task) := Input.removeInput el text in
               Some (RemoveTask id task)
          else None
      | None => None
      end
  | ClickCheckbox n =>
      match nth_error (Checklist.state_inputElements c) n with
      | Some el =>
          if Input.editMode (Input.mode el) then None
          else match Input.completeTask el with
               | Some task => Some (CompleteTask task)
               | None => None
               end
      | None => None
      end
  end.

Definition handle (e : event) (c : Checklist.component) (h : heap)
  : Checklist.component * heap * list effect :=
  match request e c with
  | Some op => step op c h
  | None => (c, h, [])
  end.

Fixpoint handleAll (events : list event) (c : Checklist.component) (h : heap)
  : Checklist.component * heap * list effect :=
  match events with
  | [] => (c, h, [])
  | e :: rest =>
      let '(c', h', es) := handle e c h in
      let '(c'', h'', es') := handleAll rest c' h' in
      (c'', h'', es ++ es')
  end.

(** The records after a session on the checklist of record [p]: the
    component is mounted, then the events are handled in order. *)
Definition session (p : ref) (mode : string) (events : list event) (h : heap)
  : heap :=
  snd (fst (handleAll events (Checklist.mount (Some p) mode h) h)).

End Session.

(* ===================================================================== *)
(** ** The effects of a handler on the store *)
(* ===================================================================== *)

(** Every component constructs its adapter as [new Storage('checklist')]. *)
Definition namespace : string := "checklist".

(** The storage calls among a handler's effects, as the adapter receives
    them: the record is serialized when [set] is called. *)
Definition storageCalls (es : list effect) : list Storage.call :=
  flat_map (fun e => match e with
                     | StorageSet k v => [Storage.SetCall k (Record.toJSON v)]
                     | StorageDelete k => [Storage.DeleteCall k]
                     | _ => []
                     end) es.

(** The store after a handler's effects. *)
Definition commit (es : list effect) (s : LocalStorage.store)
  : LocalStorage.store :=
  Storage.performAll namespace (storageCalls es) s.

(* ===================================================================== *)
(** ** The [Slide] wrapper, the [App] and the [Landing] slide *)
(* ===================================================================== *)

Module Slide.

(** [refresh]: the data is handed to [onRefresh] when there is one, and
    [onRefresh] is called without argument otherwise. *)
Definition refresh (data : option ChecklistData) : option ChecklistData :=
  match data with
  | Some d => Some d
  | None => None
  end.

End Slide.

Module App.

(** [arr.splice(index, 1, x)]: the element at [index] is replaced by [x];
    a negative [index] counts from the end, an index past the end adds
    [x] at the end. *)
Definition spliceReplace {A : Type} (index : Z) (x : A) (arr : list A)
  : list A :=
  let len := Z.of_nat (List.length arr) in
  let start := if index <? 0 then Z.max (len + index) 0 else index in
  firstn (Z.to_nat start) arr ++ x :: skipn (S (Z.to_nat start)) arr.

(** [updateLandingData], on the [landingData] of the state.  With data,
    the record of the same id is overwritten where it stands, or the data
    is added at the end; without data the list is reloaded from storage
    by [getLandingData] ([None]). *)
Definition updateLandingData (data : option ChecklistData)
           (landingData : list ChecklistData) : option (list ChecklistData) :=
  match data with
  | Some data =>
      let currentData := landingData in
      let index :=
        JS.findIndex (fun current => id current =? id data) currentData in
      match JS.at_index currentData index with
      | Some _ => Some (spliceReplace index data currentData)
      | None => Some (JS.push currentData data)
      end
  | None => None
  end.

(** [showMessage], on the [messages] of the state. *)
Definition showMessage (message : string) (messages : list string)
  : list string :=
  JS.push messages message.

(** [removeMessage]: [messages.shift()]. *)
Definition removeMessage (messages : list string) : list string :=
  match messages with
  | [] => []
  | _ :: rest => rest
  end.

(** What the callbacks that [App] hands down ([onRefresh], through
    [Slide.refresh], and [onMessage]) make of a handler's effects: the
    landing data and the message queue afterwards, or [None] when a
    reload from storage was asked for.  Storage calls go to the adapter
    and [onBack] only moves the slides. *)
Fixpoint receive (es : list effect) (landingData : list ChecklistData)
         (messages : list string)
  : option (list ChecklistData * list string) :=
  match es with
  | [] => Some (landingData, messages)
  | OnRefresh data :: rest =>
      match updateLandingData (Slide.refresh data) landingData with
      | Some landingData' => receive rest landingData' messages
      | None => None
      end
  | OnMessage message :: rest =>
      receive rest landingData (showMessage message messages)
  | _ :: rest => receive rest landingData messages
  end.

End App.

Module Landing.

Record state : Type := mkState {
  activeTab : Z;
  dialogActive : bool;
  dialogId : Z;
  dialogUseKeyboard : bool
}.

(** The initial [state]. *)
Definition initial : state :=
  {| activeTab := 0; dialogActive := false; dialogId := 0;
     dialogUseKeyboard := false |}.

(** [setActiveTab] *)
Definition setActiveTab (index : Z) (st : state) : state :=
  {| activeTab := index; dialogActive := dialogActive st;
     dialogId := dialogId st; dialogUseKeyboard := dialogUseKeyboard st |}.

(** [switchActiveTab]; [key] is [$event.key]. *)
Definition switchActiveTab (key : string) (st : state) : state :=
  let targetIndex := activeTab st in
  let targetIndex :=
    if String.eqb key "ArrowLeft" then
      if 0 <? targetIndex then 0 else 1
    else if String.eqb key "ArrowRight" then
      if targetIndex <? 1 then 1 else 0
    else targetIndex in
  setActiveTab targetIndex st.

(** [openDialog] *)
Definition openDialog (id : Z) (st : state) : state :=
  {| activeTab := activeTab st; dialogActive := true; dialogId := id;
     dialogUseKeyboard := false |}.

(** [openKbDialog] *)
Definition openKbDialog (key : string) (id : Z) (st : state) : state :=
  if String.eqb key "Enter" || String.eqb key " " then
    {| activeTab := activeTab st; dialogActive := true; dialogId := id;
       dialogUseKeyboard := true |}
  else st.

(** [cancelDialog] *)
Definition cancelDialog (st : state) : state :=
  {| activeTab := activeTab st; dialogActive := false;
     dialogId := dialogId st; dialogUseKeyboard := dialogUseKeyboard st |}.

(** [deleteChecklist]: the checklist named by the dialog is deleted from
    storage, the dialog is closed and a reload of the landing data is
    asked for. *)
Definition deleteChecklist (st : state) : state * list effect :=
  (cancelDialog st,
   [ StorageDelete (JS.toString (dialogId st));
     OnRefresh None;
     OnMessage "Checklist successfully removed" ]).

(** The records listed by [unfinishedChecklists] and by
    [completedChecklists]. *)
Definition unfinishedChecklists (data : list ChecklistData)
  : list ChecklistData :=
  filter (fun d => Bool.eqb (complete d) false) data.

Definition completedChecklists (data : list ChecklistData)
  : list ChecklistData :=
  filter (fun d => Bool.eqb (complete d) true) data.

(** The counts on the two tabs of [showTabs]. *)
Definition openCount (data : list ChecklistData) : nat :=
  List.length (filter (fun d => negb (complete d)) data).

Definition completeCount (data : list ChecklistData) : nat :=
  List.length (filter (fun d => complete d) data).

(** The number shown after "Tasks left:", on the landing list and in the
    header of a viewed checklist: [data.tasks.length - data.done.length]. *)
Definition tasksLeft (data : ChecklistData) : Z :=
  Z.of_nat (List.length (tasks data)) - Z.of_nat (List.length (done data)).

End Landing.

(* ===================================================================== *)
(** ** Further notions used in the statements *)
(* ===================================================================== *)

(** The elements that the loop of [insertInputs] builds for the tasks
    [ts], the counter standing at [created]. *)
Fixpoint inputsFor (c : Checklist.component) (h : heap) (created : Z)
         (ts : list string) : list Input.Props :=
  match ts with
  | [] => []
  | task :: rest =>
      {| Input.key := created + 1; Input.id := created + 1;
         Input.value := Some task; Input.mode := Checklist.props_mode c;
         Input.focus := false;
         Input.checked := Some (Checklist.isComplete task c h);
         Input.isRemovable := String.eqb (Checklist.props_mode c) "edit";
         Input.onComplete := true |}
      :: inputsFor c h (created + 1) rest
  end.

(** The integers [first], [first + 1], ... ([count] of them). *)
Fixpoint countFrom (first : Z) (count : nat) : list Z :=
  match count with
  | O => []
  | S count' => first :: countFrom (first + 1) count'
  end.

(** The ids of the inputs shown. *)
Definition shownIds (c : Checklist.component) : list Z :=
  map Input.id (Checklist.state_inputElements c).

(** [removeMessage], [k] times. *)
Fixpoint dispatched (k : nat) (messages : list string) : list string :=
  match k with
  | O => messages
  | S k' => dispatched k' (App.removeMessage messages)
  end.

(* ===================================================================== *)
(** ** Notions used in the statements *)
(* ===================================================================== *)

(** The list [l] without the first element that satisfies [pred]: what
    [splice(index, 1)] leaves when [index] is the position found by
    [findIndex] or [indexOf]. *)
Fixpoint removeFirstBy {A : Type} (pred : A -> bool) (l : list A) : list A :=
  match l with
  | [] => []
  | x :: rest => if pred x then rest else x :: removeFirstBy pred rest
  end.

Definition removeFirst (task : string) (l : list string) : list string :=
  removeFirstBy (String.eqb task) l.

(** The [done] array that [completeTask] leaves. *)
Definition toggled (task : string) (d : list string) : list string :=
  if JS.includes d task && JS.nonEmpty task
  then removeFirst task d
  else d ++ [task].

(** Whether [removeInput] goes ahead (more than one input is shown), and
    whether it then reaches the [done] array (the add button is there to
    be focused). *)
Definition removable (c : Checklist.component) : bool :=
  1 <? Z.of_nat (List.length (Checklist.state_inputElements c)).

Definition prunes (c : Checklist.component) : bool :=
  removable c && Checklist.rendersEdit c.

(** The checkboxes of the component only pass tasks of the record. *)
Definition checkboxesWithin (c : Checklist.component) (ts : list string) : Prop :=
  forall el task,
    In el (Checklist.state_inputElements c) ->
    Input.completeTask el = Some task -> In task ts.

(** [set(k, _)] was called and no [delete(k)] came after it. *)
Definition survives (k : string) (calls : list Storage.call) : Prop :=
  exists before value after,
    calls = before ++ Storage.SetCall k value :: after /\
    ~ In (Storage.DeleteCall k) after.

(** The suffixes that [keys()] resolves with. *)
Definition suffixes (namespace : string) (s : LocalStorage.store)
  : list string :=
  flat_map (fun k => match Storage.stripPrefix (namespace ++ "-") k with
                     | Some suffix => [suffix]
                     | None => []
                     end) (LocalStorage.keys s).

(** The digits of [n], as [JS.toString] prints them. *)
Definition digitsOf (n : Z) : Decimal.uint :=
  match n with
  | 0 => Decimal.D0 Decimal.Nil
  | Z.pos p => Pos.to_uint p
  | Z.neg p => Pos.to_uint p
  end.

(** A value is read back from its text, whatever follows the text. *)
Definition readsBack (v : JSON.value) : Prop :=
  forall fuel k,
    (JSON.size v <= fuel)%nat -> JSON.endsNumber k = true ->
    JSON.parseValue fuel (JSON.stringify v ++ k) = Some (v, k).

(* ===================================================================== *)
(** ** Facts on the JavaScript primitives *)
(* ===================================================================== *)

Module JSFacts.

Lemma nonEmpty_true (s : string) : JS.nonEmpty s = true <-> s <> "".
Proof. destruct s; simpl; split; congruence. Qed.

Lemma nonEmpty_false (s : string) : JS.nonEmpty s = false <-> s = "".
Proof. destruct s; simpl; split; congruence. Qed.

Section FindIndex.
Context {A : Type} (pred : A -> bool).

Lemma findIndex_lower (l : list A) : -1 <= JS.findIndex pred l.
Proof.
  induction l as [|x l IH]; simpl; [lia|].
  destruct (pred x); [lia|].
  destruct (JS.findIndex pred l <? 0) eqn:E; lia.
Qed.

Lemma findIndex_absent (l : list A) :
  existsb pred l = false -> JS.findIndex pred l = -1.
Proof.
  induction l as [|x l IH]; simpl; [reflexivity|].
  destruct (pred x); simpl; [discriminate|].
  intros H. rewrite (IH H). reflexivity.
Qed.

Lemma findIndex_present (l : list A) :
  existsb pred l = true ->
  0 <= JS.findIndex pred l /\
  exists x, JS.at_index l (JS.findIndex pred l) = Some x /\ pred x = true.
Proof.
  induction l as [|x l IH]; simpl; [discriminate|].
  destruct (pred x) eqn:Px; simpl.
  - intros _. split; [lia|]. exists x. split; [reflexivity|assumption].
  - intros H. destruct (IH H) as [Hge [y [Hy Py]]].
    destruct (JS.findIndex pred l <? 0) eqn:E;
      [apply Z.ltb_lt in E; lia|].
    split; [lia|]. exists y. split; [|assumption].
    unfold JS.at_index in *.
    destruct (JS.findIndex pred l + 1 <? 0) eqn:E2;
      [apply Z.ltb_lt in E2; lia|].
    rewrite E in Hy.
    replace (Z.to_nat (JS.findIndex pred l + 1))
      with (S (Z.to_nat (JS.findIndex pred l))) by lia.
    exact Hy.
Qed.

Lemma splice1_findIndex (l : list A) :
  existsb pred l = true ->
  JS.splice1 (JS.findIndex pred l) l = removeFirstBy pred l.
Proof.
  intros H. unfold JS.splice1.
  destruct (findIndex_present l H) as [Hge _].
  destruct (JS.findIndex pred l <? 0) eqn:E;
    [apply Z.ltb_lt in E; lia|].
  clear E Hge. induction l as [|x l IH]; simpl in *; [discriminate|].
  destruct (pred x) eqn:Px; simpl in *; [reflexivity|].
  destruct (findIndex_present l H) as [Hge _].
  destruct (JS.findIndex pred l <? 0) eqn:E;
    [apply Z.ltb_lt in E; lia|].
  replace (Z.to_nat (JS.findIndex pred l + 1))
    with (S (Z.to_nat (JS.findIndex pred l))) by lia.
  simpl. f_equal. apply IH. assumption.
Qed.

Lemma removeFirstBy_absent (l : list A) :
  existsb pred l = false -> removeFirstBy pred l = l.
Proof.
  induction l as [|x l IH]; simpl; [reflexivity|].
  destruct (pred x); simpl; [discriminate|].
  intros H. f_equal. auto.
Qed.

Lemma removeFirstBy_incl (l : list A) : incl (removeFirstBy pred l) l.
Proof.
  induction l as [|x l IH]; simpl; [apply incl_refl|].
  destruct (pred x).
  - apply incl_tl, incl_refl.
  - apply incl_cons; [left; reflexivity|apply incl_tl, IH].
Qed.
End FindIndex.

Lemma removeFirstBy_ext {A : Type} (p q : A -> bool) (l : list A) :
  (forall x, p x = q x) -> removeFirstBy p l = removeFirstBy q l.
Proof.
  intros E. induction l as [|x l IH]; simpl; [reflexivity|].
  rewrite E, IH. reflexivity.
Qed.

Lemma existsb_ext' {A : Type} (p q : A -> bool) (l : list A) :
  (forall x, p x = q x) -> existsb p l = existsb q l.
Proof.
  intros E. induction l as [|x l IH]; simpl; [reflexivity|].
  rewrite E, IH. reflexivity.
Qed.

Lemma includes_In (l : list string) (task : string) :
  JS.includes l task = true <-> In task l.
Proof.
  unfold JS.includes. rewrite existsb_exists. split.
  - intros [x [Hx E]]. apply String.eqb_eq in E. subst. assumption.
  - intros H. exists task. split; [assumption|apply String.eqb_refl].
Qed.

Lemma includes_not_In (l : list string) (task : string) :
  JS.includes l task = false <-> ~ In task l.
Proof.
  rewrite <- includes_In. destruct (JS.includes l task); split;
    congruence.
Qed.


Lemma removeFirst_In (task : string) (l : list string) :
  In task (removeFirst task l) -> In task l.
Proof. apply removeFirstBy_incl. Qed.

End JSFacts.

(* ===================================================================== *)
(** ** Reading back what [JSON.stringify] wrote *)
(* ===================================================================== *)

Module JSONFacts.
Import JSON.

Lemma append_assoc (a b c : string) :
  ((a ++ b) ++ c = a ++ (b ++ c))%string.
Proof. induction a as [|x a IH]; simpl; [reflexivity|]. now rewrite IH. Qed.

Lemma append_nil (a : string) : (a ++ "")%string = a.
Proof. induction a as [|x a IH]; simpl; [reflexivity|]. now rewrite IH. Qed.

Lemma length_append (a b : string) :
  String.length (a ++ b) = (String.length a + String.length b)%nat.
Proof. induction a as [|x a IH]; simpl; [reflexivity|]. now rewrite IH. Qed.

(** Induction on values, with the hypothesis for every element of an
    array and every member of an object. *)
Section Induction.
Variable P : value -> Prop.
Hypothesis HNull : P Null.
Hypothesis HBool : forall b, P (Bool b).
Hypothesis HNumber : forall n, P (Number n).
Hypothesis HStr : forall s, P (Str s).
Hypothesis HArray : forall items, Forall P items -> P (Array items).
Hypothesis HObject :
  forall members, Forall (fun m => P (snd m)) members -> P (Object members).

Lemma value_induction : forall v : value, P v.
Proof.
  exact (fix induction (v : value) : P v :=
  match v with
  | Null => HNull
  | Bool b => HBool b
  | Number n => HNumber n
  | Str s => HStr s
  | Array items =>
      HArray items
        ((fix all (l : list value) : Forall P l :=
            match l with
            | [] => Forall_nil P
            | x :: l' => Forall_cons x (induction x) (all l')
            end) items)
  | Object members =>
      HObject members
        ((fix all (l : list (string * value))
            : Forall (fun m => P (snd m)) l :=
            match l with
            | [] => Forall_nil _
            | m :: l' =>
                Forall_cons (P := fun m => P (snd m)) m
                  (induction (snd m)) (all l')
            end) members)
  end).
Qed.
End Induction.

(** *** Strings *)

Lemma parse_escape (c : ascii) (k : string) :
  parseStringBody (escape c ++ k) = consChar c (parseStringBody k).
Proof.
  destruct c as [[] [] [] [] [] [] [] []]; reflexivity.
Qed.

Lemma parse_escapeAll (s k : string) :
  parseStringBody (escapeAll s ++ String quote k) = Some (s, k).
Proof.
  induction s as [|c s IH]; [reflexivity|].
  cbn [escapeAll]. rewrite append_assoc, parse_escape, IH. reflexivity.
Qed.

Lemma parse_stringifyString (s k : string) :
  exists body,
    (stringifyString s ++ k)%string = String quote body /\
    parseStringBody body = Some (s, k).
Proof.
  exists (escapeAll s ++ String quote k)%string. split.
  - unfold stringifyString. cbn [append]. rewrite append_assoc. reflexivity.
  - apply parse_escapeAll.
Qed.

(** *** Numbers *)

Lemma endsNumber_scan (k : string) :
  endsNumber k = true -> scanDigits k = (Decimal.Nil, k).
Proof.
  destruct k as [|c k]; [reflexivity|].
  unfold endsNumber. cbn [scanDigits].
  destruct (digitOf c); [discriminate|reflexivity].
Qed.

Lemma endsNumber_fraction (k : string) :
  endsNumber k = true -> startsFraction k = false.
Proof.
  destruct k as [|c k]; [reflexivity|].
  unfold endsNumber. destruct (digitOf c); [discriminate|].
  intros H. now apply negb_true_iff in H.
Qed.

Lemma scanDigits_uint (d : Decimal.uint) (k : string) :
  endsNumber k = true ->
  scanDigits (NilEmpty.string_of_uint d ++ k) = (d, k).
Proof.
  intros Hk. induction d; cbn [NilEmpty.string_of_uint append];
    [now apply endsNumber_scan|..];
    cbn [scanDigits digitOf]; rewrite IHd; reflexivity.
Qed.

Lemma parseDigits_uint (negative : bool) (d : Decimal.uint) (k : string) :
  Decimal.unorm d = d -> endsNumber k = true ->
  parseDigits negative (NilEmpty.string_of_uint d ++ k) =
  Some (Number (Z.of_int (if negative then Decimal.Neg d
                          else Decimal.Pos d)), k).
Proof.
  intros Hd Hk. unfold parseDigits.
  rewrite (scanDigits_uint d k Hk), Hd.
  rewrite (Decimal.internal_uint_dec_lb d d eq_refl).
  rewrite (endsNumber_fraction k Hk). reflexivity.
Qed.

Lemma parseValue_digits (f : nat) (d : Decimal.uint) (k : string) :
  d <> Decimal.Nil ->
  parseValue (S f) (NilEmpty.string_of_uint d ++ k) =
  parseDigits false (NilEmpty.string_of_uint d ++ k).
Proof.
  intros Hd. destruct d; [congruence|..]; reflexivity.
Qed.

Lemma digitsOf_nonnil (n : Z) : digitsOf n <> Decimal.Nil.
Proof.
  destruct n; cbn [digitsOf]; [discriminate|..];
    apply DecimalPos.Unsigned.to_uint_nonnil.
Qed.

Lemma digitsOf_norm (n : Z) : Decimal.unorm (digitsOf n) = digitsOf n.
Proof.
  destruct n as [|p|p]; cbn [digitsOf]; [reflexivity|..];
    rewrite <- DecimalPos.Unsigned.to_of, DecimalPos.Unsigned.of_to;
    reflexivity.
Qed.

Lemma toString_digits (n : Z) :
  JS.toString n =
  ((if (n <? 0)%Z then "-" else "") ++ NilEmpty.string_of_uint (digitsOf n))%string.
Proof.
  unfold JS.toString.
  assert (E : forall d, d <> Decimal.Nil ->
              NilZero.string_of_uint d = NilEmpty.string_of_uint d)
    by (intros d Hd; destruct d; [congruence|..]; reflexivity).
  destruct n as [|p|p]; cbn [Z.to_int NilZero.string_of_int digitsOf Z.ltb
                             Z.compare append];
    [reflexivity|..]; rewrite E by apply DecimalPos.Unsigned.to_uint_nonnil;
    reflexivity.
Qed.

Lemma of_int_digitsOf (n : Z) :
  Z.of_int (if n <? 0 then Decimal.Neg (digitsOf n)
            else Decimal.Pos (digitsOf n)) = n.
Proof.
  destruct n as [|p|p]; [reflexivity|..].
  - exact (DecimalZ.of_to (Z.pos p)).
  - exact (DecimalZ.of_to (Z.neg p)).
Qed.

Lemma parse_number (f : nat) (n : Z) (k : string) :
  endsNumber k = true ->
  parseValue (S f) (JS.toString n ++ k) = Some (Number n, k).
Proof.
  intros Hk. rewrite toString_digits.
  pose proof (of_int_digitsOf n) as E.
  destruct (n <? 0).
  - change (parseValue (S f) (("-" ++ NilEmpty.string_of_uint (digitsOf n)) ++ k))
      with (parseDigits true (NilEmpty.string_of_uint (digitsOf n) ++ k)).
    rewrite parseDigits_uint by (apply digitsOf_norm || assumption).
    now rewrite E.
  - cbn [append].
    rewrite parseValue_digits by apply digitsOf_nonnil.
    rewrite parseDigits_uint by (apply digitsOf_norm || assumption).
    now rewrite E.
Qed.

Lemma toString_nonempty (n : Z) : (1 <= String.length (JS.toString n))%nat.
Proof.
  rewrite toString_digits, length_append.
  pose proof (digitsOf_nonnil n) as H.
  destruct (digitsOf n); [congruence|..]; cbn [NilEmpty.string_of_uint String.length]; lia.
Qed.

(** *** Arrays and objects *)

Lemma stringify_Array_cons (x : value) (l : list value) :
  stringify (Array (x :: l)) =
  String "[" (stringify x ++ moreElements l).
Proof.
  reflexivity.
Qed.

Lemma stringify_Object_cons (k : string) (x : value)
      (l : list (string * value)) :
  stringify (Object ((k, x) :: l)) =
  String "{" (stringifyString k ++ String ":" (stringify x ++ moreMembers l)).
Proof.
  reflexivity.
Qed.

Lemma size_Array (items : list value) :
  size (Array items) = S (sizeElements items).
Proof.
  reflexivity.
Qed.

Lemma size_Object (members : list (string * value)) :
  size (Object members) = S (sizeMembers members).
Proof.
  reflexivity.
Qed.

Lemma parseValue_array (f : nat) (rest : string) :
  parseValue (S f) (String "[" rest) =
  match startsWith "]" rest with
  | Some rest' => Some (Array [], rest')
  | None =>
      match parseElements f rest with
      | Some (items, rest') => Some (Array items, rest')
      | None => None
      end
  end.
Proof. reflexivity. Qed.

Lemma parseValue_object (f : nat) (rest : string) :
  parseValue (S f) (String "{" rest) =
  match startsWith "}" rest with
  | Some rest' => Some (Object [], rest')
  | None =>
      match parseMembers f rest with
      | Some (members, rest') => Some (Object members, rest')
      | None => None
      end
  end.
Proof. reflexivity. Qed.

Lemma parseValue_string (f : nat) (rest : string) :
  parseValue (S f) (String quote rest) =
  match parseStringBody rest with
  | Some (str, rest') => Some (Str str, rest')
  | None => None
  end.
Proof. reflexivity. Qed.

Lemma parseElements_S (f : nat) (s : string) :
  parseElements (S f) s =
  match parseValue f s with
  | Some (v, rest) =>
      match startsWith "," rest with
      | Some rest' =>
          match parseElements f rest' with
          | Some (vs, rest'') => Some (v :: vs, rest'')
          | None => None
          end
      | None =>
          match startsWith "]" rest with
          | Some rest' => Some ([v], rest')
          | None => None
          end
      end
  | None => None
  end.
Proof. reflexivity. Qed.

Lemma parseMembers_S (f : nat) (body : string) :
  parseMembers (S f) (String quote body) =
  match parseStringBody body with
  | Some (k, rest1) =>
      match startsWith ":" rest1 with
      | Some rest2 =>
          match parseValue f rest2 with
          | Some (v, rest3) =>
              match startsWith "," rest3 with
              | Some rest4 =>
                  match parseMembers f rest4 with
                  | Some (ms, rest5) => Some ((k, v) :: ms, rest5)
                  | None => None
                  end
              | None =>
                  match startsWith "}" rest3 with
                  | Some rest4 => Some ([(k, v)], rest4)
                  | None => None
                  end
              end
          | None => None
          end
      | None => None
      end
  | None => None
  end.
Proof. reflexivity. Qed.

(** No value starts with a closing bracket. *)
Lemma startsWith_bracket_value (v : value) (k : string) :
  startsWith "]" (stringify v ++ k) = None.
Proof.
  destruct v as [|[]|n|s|[|x l]|[|[k' x] l]]; try reflexivity.
  cbn [stringify]. rewrite toString_digits.
  pose proof (digitsOf_nonnil n) as H.
  destruct (n <? 0); [reflexivity|].
  destruct (digitsOf n); [congruence|..]; reflexivity.
Qed.

Lemma endsNumber_moreElements (l : list value) (k : string) :
  endsNumber (moreElements l ++ k) = true.
Proof. destruct l; reflexivity. Qed.

Lemma endsNumber_moreMembers (l : list (string * value)) (k : string) :
  endsNumber (moreMembers l ++ k) = true.
Proof. destruct l as [|[k' x] l]; reflexivity. Qed.

(** *** The round trip *)

Lemma elements_read_back (l : list value) :
  Forall readsBack l ->
  forall x, readsBack x ->
  forall fuel k,
    (sizeElements (x :: l) <= fuel)%nat ->
    parseElements fuel (stringify x ++ moreElements l ++ k) = Some (x :: l, k).
Proof.
  induction 1 as [|y l Hy Hl IH]; intros x Hx fuel k Hfuel;
    cbn [sizeElements] in Hfuel;
    (destruct fuel as [|f]; [lia|]); rewrite parseElements_S.
  - cbn [moreElements append].
    rewrite (Hx f (String "]" k)) by (reflexivity || lia).
    reflexivity.
  - rewrite (Hx f (moreElements (y :: l) ++ k)%string)
      by (apply endsNumber_moreElements || lia).
    cbn [moreElements append]. rewrite append_assoc.
    change (startsWith "," (String "," (stringify y ++ moreElements l ++ k)))
      with (Some (stringify y ++ moreElements l ++ k)%string).
    cbv beta iota.
    rewrite (IH y Hy f k) by (cbn [sizeElements]; lia).
    reflexivity.
Qed.

Lemma members_read_back (l : list (string * value)) :
  Forall (fun m => readsBack (snd m)) l ->
  forall k0 x, readsBack x ->
  forall fuel k,
    (sizeMembers ((k0, x) :: l) <= fuel)%nat ->
    parseMembers fuel
      (stringifyString k0 ++ String ":" (stringify x ++ moreMembers l ++ k)) =
    Some ((k0, x) :: l, k).
Proof.
  induction 1 as [|[k1 y] l Hy Hl IH]; intros k0 x Hx fuel k Hfuel;
    cbn [sizeMembers] in Hfuel;
    (destruct fuel as [|f]; [lia|]);
    match goal with
    | |- parseMembers _ (stringifyString ?a ++ ?r)%string = _ =>
        destruct (parse_stringifyString a r) as [body [-> Hbody]]
    end;
    rewrite parseMembers_S, Hbody;
    match goal with
    | |- context [startsWith ":" (String ":" ?r)] =>
        change (startsWith ":" (String ":" r)) with (Some r)
    end;
    cbv beta iota.
  - cbn [moreMembers append].
    rewrite (Hx f (String "}" k)) by (reflexivity || lia).
    reflexivity.
  - rewrite (Hx f (moreMembers ((k1, y) :: l) ++ k)%string)
      by (apply endsNumber_moreMembers || lia).
    cbn [moreMembers append]. rewrite !append_assoc. cbn [append].
    match goal with
    | |- context [startsWith "," (String "," ?r)] =>
        change (startsWith "," (String "," r)) with (Some r)
    end.
    cbv beta iota. rewrite append_assoc. cbn [snd] in Hy.
    rewrite (IH k1 y Hy f k) by (cbn [sizeMembers]; lia).
    reflexivity.
Qed.

(** Reading takes at least one unit of fuel, and every value has a
    positive size. *)
Ltac spend_fuel :=
  match goal with
  | Hfuel : (_ <= ?fuel)%nat |- _ =>
      destruct fuel as [|?f]; [cbn in Hfuel; lia|]
  end.

Theorem stringify_reads_back (v : value) : readsBack v.
Proof.
  induction v as [|b|n|s|items IH|members IH] using value_induction;
    intros fuel k Hfuel Hk; spend_fuel.
  - reflexivity.
  - destruct b; reflexivity.
  - cbn [stringify]. now apply parse_number.
  - cbn [stringify].
    destruct (parse_stringifyString s k) as [body [-> Hbody]].
    rewrite parseValue_string, Hbody. reflexivity.
  - rewrite size_Array in Hfuel.
    destruct items as [|x l]; [reflexivity|].
    rewrite stringify_Array_cons. cbn [append].
    rewrite parseValue_array, append_assoc, startsWith_bracket_value.
    inversion IH as [|? ? Hx Hl]; subst.
    rewrite (elements_read_back l Hl x Hx f k) by lia.
    reflexivity.
  - rewrite size_Object in Hfuel.
    destruct members as [|[k0 x] l]; [reflexivity|].
    rewrite stringify_Object_cons. cbn [append].
    rewrite parseValue_object, append_assoc. cbn [append].
    rewrite append_assoc.
    inversion IH as [|? ? Hx Hl]; subst. cbn [snd] in Hx.
    replace (startsWith "}" _) with (@None string)
      by (unfold stringifyString; reflexivity).
    rewrite (members_read_back l Hl k0 x Hx f k) by lia.
    reflexivity.
Qed.

(** The length of the text is fuel enough. *)
Lemma size_moreElements (l : list value) :
  Forall (fun v => (size v <= String.length (stringify v))%nat) l ->
  (S (sizeElements l) <= String.length (moreElements l))%nat.
Proof.
  induction 1 as [|x l Hx Hl IH]; cbn [sizeElements moreElements append];
    [cbn; lia|].
  cbn [String.length]. rewrite length_append. lia.
Qed.

Lemma size_moreMembers (l : list (string * value)) :
  Forall (fun m => (size (snd m) <= String.length (stringify (snd m)))%nat) l ->
  (S (sizeMembers l) <= String.length (moreMembers l))%nat.
Proof.
  induction 1 as [|[k x] l Hx Hl IH]; cbn [sizeMembers moreMembers append];
    [cbn; lia|].
  cbn [snd] in Hx. cbn [String.length].
  rewrite length_append. cbn [String.length]. rewrite length_append. lia.
Qed.

Lemma size_le_length (v : value) :
  (size v <= String.length (stringify v))%nat.
Proof.
  induction v as [|b|n|s|items IH|members IH] using value_induction.
  - cbn; lia.
  - destruct b; cbn; lia.
  - cbn [size stringify]. apply toString_nonempty.
  - cbn; lia.
  - rewrite size_Array. destruct items as [|x l]; [cbn; lia|].
    rewrite stringify_Array_cons. cbn [String.length sizeElements].
    rewrite length_append.
    inversion IH as [|? ? Hx Hl]; subst.
    pose proof (size_moreElements l Hl). lia.
  - rewrite size_Object. destruct members as [|[k x] l]; [cbn; lia|].
    rewrite stringify_Object_cons. cbn [String.length sizeMembers].
    rewrite length_append. cbn [String.length]. rewrite length_append.
    inversion IH as [|? ? Hx Hl]; subst. cbn [snd] in Hx.
    pose proof (size_moreMembers l Hl). lia.
Qed.

(** [JSON.parse(JSON.stringify(v))] is [v]. *)
Lemma parse_stringify (v : value) : parse (stringify v) = Some v.
Proof.
  unfold parse.
  rewrite <- (append_nil (stringify v)) at 2.
  rewrite (stringify_reads_back v (S (String.length (stringify v))) "")
    by (reflexivity || (pose proof (size_le_length v); lia)).
  reflexivity.
Qed.
End JSONFacts.

(* ===================================================================== *)
(** ** Facts on records as JSON values *)
(* ===================================================================== *)

Module RecordFacts.
Import Record.

Lemma strings_map_Str (l : list string) : strings (map JSON.Str l) = Some l.
Proof.
  induction l as [|s l IH]; [reflexivity|].
  cbn [map strings asString]. rewrite IH. reflexivity.
Qed.

(** A record written as JSON denotes the same record. *)
Lemma fromJSON_toJSON (data : ChecklistData) :
  fromJSON (toJSON data) = Some data.
Proof.
  destruct data as [c d i ts tm t].
  unfold fromJSON, toJSON. cbn [complete done id tasks time title].
  cbn [JSON.member String.eqb Ascii.eqb Bool.eqb asBool asNumber asString
       asStrings].
  rewrite !strings_map_Str. reflexivity.
Qed.

End RecordFacts.

(* ===================================================================== *)
(** ** Facts on the store and the adapter *)
(* ===================================================================== *)

Module StorageFacts.
Import Storage LocalStorage.

Lemma getItem_setItem (key value : string) (s : store) :
  getItem key (setItem key value s) = Some value.
Proof.
  induction s as [|[k v] s IH]; cbn [setItem getItem].
  - now rewrite String.eqb_refl.
  - destruct (String.eqb k key) eqn:E; cbn [getItem].
    + now rewrite String.eqb_refl.
    + now rewrite E.
Qed.

Lemma getItem_removeItem (key : string) (s : store) :
  getItem key (removeItem key s) = None.
Proof.
  unfold removeItem. induction s as [|[k v] s IH]; [reflexivity|].
  cbn [filter fst]. destruct (String.eqb k key) eqn:E; cbn [negb getItem].
  - exact IH.
  - now rewrite E.
Qed.

Lemma In_keys_setItem (key value k : string) (s : store) :
  In k (keys (setItem key value s)) <-> k = key \/ In k (keys s).
Proof.
  unfold keys. induction s as [|[k' v] s IH]; cbn [setItem map fst In].
  - intuition congruence.
  - destruct (String.eqb k' key) eqn:E; cbn [map fst In].
    + apply String.eqb_eq in E. subst. intuition congruence.
    + rewrite IH. intuition congruence.
Qed.

Lemma In_keys_removeItem (key k : string) (s : store) :
  In k (keys (removeItem key s)) <-> k <> key /\ In k (keys s).
Proof.
  unfold keys, removeItem. induction s as [|[k' v] s IH]; cbn [filter map fst In].
  - tauto.
  - destruct (String.eqb k' key) eqn:E; cbn [negb map fst In].
    + apply String.eqb_eq in E. subst. rewrite IH. intuition congruence.
    + apply String.eqb_neq in E. rewrite IH. intuition congruence.
Qed.

Lemma NoDup_keys_setItem (key value : string) (s : store) :
  NoDup (keys s) -> NoDup (keys (setItem key value s)).
Proof.
  unfold keys. induction s as [|[k v] s IH]; cbn [setItem map fst]; intros H.
  - constructor; [tauto|constructor].
  - inversion H as [|? ? Hk Hs]; subst.
    destruct (String.eqb k key) eqn:E; cbn [map fst].
    + apply String.eqb_eq in E. subst. now constructor.
    + apply String.eqb_neq in E. constructor; [|now apply IH].
      intros Hin. apply (In_keys_setItem key value k s) in Hin.
      destruct Hin; [congruence|contradiction].
Qed.

Lemma NoDup_keys_removeItem (key : string) (s : store) :
  NoDup (keys s) -> NoDup (keys (removeItem key s)).
Proof.
  unfold keys, removeItem. induction s as [|[k v] s IH]; cbn [filter map fst];
    intros H; [constructor|].
  inversion H as [|? ? Hk Hs]; subst.
  destruct (String.eqb k key); cbn [negb map fst]; [now apply IH|].
  constructor; [|now apply IH].
  intros Hin. apply (In_keys_removeItem key k s) in Hin. tauto.
Qed.

(** *** Prefixes *)

Lemma stripPrefix_append (prefix key : string) :
  stripPrefix prefix (prefix ++ key) = Some key.
Proof.
  induction prefix as [|a p IH]; [reflexivity|].
  cbn [append stripPrefix]. now rewrite Ascii.eqb_refl.
Qed.

Lemma stripPrefix_Some (prefix key suffix : string) :
  stripPrefix prefix key = Some suffix -> key = (prefix ++ suffix)%string.
Proof.
  revert key. induction prefix as [|a p IH]; intros key; cbn [stripPrefix append].
  - congruence.
  - destruct key as [|b key]; [discriminate|].
    destruct (Ascii.eqb a b) eqn:E; [|discriminate].
    apply Ascii.eqb_eq in E. subst. intros H. f_equal. now apply IH.
Qed.

Lemma append_inj (prefix a b : string) :
  (prefix ++ a = prefix ++ b)%string -> a = b.
Proof.
  induction prefix as [|c p IH]; cbn [append]; [tauto|].
  intros H. injection H as H. now apply IH.
Qed.

Section Namespace.
Variable namespace : string.

Lemma keys_suffixes (s : store) :
  Storage.keys namespace s = Resolved (suffixes namespace s).
Proof. reflexivity. Qed.

Lemma storageKey_prefix (key : string) :
  storageKey namespace key = ((namespace ++ "-") ++ key)%string.
Proof. unfold storageKey. now rewrite JSONFacts.append_assoc. Qed.

Lemma In_suffixes (key : string) (s : store) :
  In key (suffixes namespace s) <-> In (storageKey namespace key) (LocalStorage.keys s).
Proof.
  unfold suffixes. rewrite in_flat_map, storageKey_prefix. split.
  - intros [k [Hk Hin]].
    destruct (stripPrefix (namespace ++ "-") k) as [sfx|] eqn:E; [|destruct Hin].
    destruct Hin as [->|[]]. apply stripPrefix_Some in E. now subst.
  - intros H. eexists. split; [exact H|].
    rewrite stripPrefix_append. now left.
Qed.

Lemma NoDup_suffixes (s : store) :
  NoDup (LocalStorage.keys s) -> NoDup (suffixes namespace s).
Proof.
  unfold suffixes. induction (LocalStorage.keys s) as [|k l IH];
    cbn [flat_map]; intros H; [constructor|].
  inversion H as [|? ? Hk Hl]; subst.
  destruct (stripPrefix (namespace ++ "-") k) as [sfx|] eqn:E;
    cbn [app]; [|now apply IH].
  constructor; [|now apply IH].
  rewrite in_flat_map. intros [k' [Hk' Hin]].
  destruct (stripPrefix (namespace ++ "-") k') as [sfx'|] eqn:E';
    [|destruct Hin].
  destruct Hin as [->|[]].
  apply stripPrefix_Some in E, E'. congruence.
Qed.

Lemma storageKey_inj (a b : string) :
  storageKey namespace a = storageKey namespace b -> a = b.
Proof. rewrite !storageKey_prefix. apply append_inj. Qed.

(** What a read finds after a write and after a removal under the same
    key. *)
Lemma get_after_set (key : string) (value : JSON.value) (s : store) :
  get namespace key (fst (set namespace key value s)) = Resolved (Some value).
Proof.
  unfold get, set. cbn [fst].
  rewrite getItem_setItem, JSONFacts.parse_stringify. reflexivity.
Qed.

Lemma get_after_delete (key : string) (s : store) :
  get namespace key (fst (delete namespace key s)) = Resolved None.
Proof.
  unfold get, delete. cbn [fst]. now rewrite getItem_removeItem.
Qed.

End Namespace.

End StorageFacts.

(* ===================================================================== *)
(** ** Properties of the storage adapter *)
(* ===================================================================== *)

Lemma snoc_split {A : Type} (before after l : list A) (x c : A) :
  l ++ [c] = before ++ x :: after ->
  (after = [] /\ before = l /\ x = c) \/
  (exists after', after = after' ++ [c] /\ l = before ++ x :: after').
Proof.
  intros E. destruct after as [|y after] using rev_ind.
  - left. apply app_inj_tail in E. intuition congruence.
  - right. exists after. clear IHafter.
    change (before ++ x :: after ++ [y]) with (before ++ (x :: after) ++ [y]) in E.
    rewrite app_assoc in E. apply app_inj_tail in E.
    destruct E as [-> ->]. tauto.
Qed.

Lemma survives_nil (k : string) : ~ survives k [].
Proof.
  intros [before [value [after [E _]]]]. destruct before; discriminate.
Qed.

Lemma survives_snoc (k : string) (calls : list Storage.call) (c : Storage.call) :
  survives k (calls ++ [c]) <->
  match c with
  | Storage.SetCall k' _ => k = k' \/ survives k calls
  | Storage.DeleteCall k' => k <> k' /\ survives k calls
  end.
Proof.
  split.
  - intros [before [value [after [E Hno]]]].
    apply snoc_split in E. destruct E as [[-> [-> <-]]|[after' [-> ->]]].
    + now left.
    + assert (Hc : c <> Storage.DeleteCall k)
        by (intros ->; apply Hno, in_or_app; right; now left).
      assert (Hs : survives k (before ++ Storage.SetCall k value :: after')).
      { exists before, value, after'. split; [reflexivity|].
        intros Hin. apply Hno, in_or_app. now left. }
      destruct c as [k' v|k']; [now right|].
      split; [congruence|exact Hs].
  - destruct c as [k' v|k'].
    + intros [->|[before [value [after [-> Hno]]]]].
      * exists calls, v, []. split; [reflexivity|tauto].
      * exists before, value, (after ++ [Storage.SetCall k' v]). split.
        -- now rewrite <- app_assoc.
        -- intros Hin. apply in_app_or in Hin.
           destruct Hin as [Hin|[Hin|[]]]; [tauto|discriminate].
    + intros [Hne [before [value [after [-> Hno]]]]].
      exists before, value, (after ++ [Storage.DeleteCall k']). split.
      * now rewrite <- app_assoc.
      * intros Hin. apply in_app_or in Hin.
        destruct Hin as [Hin|[Hin|[]]]; [tauto|congruence].
Qed.

Lemma performAll_snoc (ns : string) (calls : list Storage.call)
      (c : Storage.call) (s : LocalStorage.store) :
  Storage.performAll ns (calls ++ [c]) s =
  Storage.perform ns c (Storage.performAll ns calls s).
Proof. unfold Storage.performAll. now rewrite fold_left_app. Qed.

(** After any calls on a store that held no entry of the namespace: the
    store's keys stay distinct and the adapter lists exactly the
    surviving keys, whatever else the store holds. *)
Lemma suffixes_after_calls
      (ns : string) (calls : list Storage.call) (s0 : LocalStorage.store) :
  NoDup (LocalStorage.keys s0) ->
  suffixes ns s0 = [] ->
  let s := Storage.performAll ns calls s0 in
  NoDup (LocalStorage.keys s) /\
  forall k, In k (suffixes ns s) <-> survives k calls.
Proof.
  intros Hnd0 Hnone.
  induction calls as [|c calls IH] using rev_ind; cbv zeta.
  - split; [exact Hnd0|]. intros k. cbn [Storage.performAll fold_left].
    rewrite Hnone. split; [intros []|].
    intros H. now apply survives_nil in H.
  - rewrite performAll_snoc. destruct IH as [Hnd IH].
    set (s := Storage.performAll ns calls s0) in *.
    destruct c as [k' v|k']; cbn [Storage.perform Storage.set Storage.delete fst].
    + split; [now apply StorageFacts.NoDup_keys_setItem|].
      intros k. rewrite survives_snoc, StorageFacts.In_suffixes,
        StorageFacts.In_keys_setItem, <- StorageFacts.In_suffixes, IH.
      split; (intros [H|H]; [left|now right]).
      * now apply StorageFacts.storageKey_inj in H.
      * now subst.
    + split; [now apply StorageFacts.NoDup_keys_removeItem|].
      intros k. rewrite survives_snoc, StorageFacts.In_suffixes,
        StorageFacts.In_keys_removeItem, <- StorageFacts.In_suffixes, IH.
      split; (intros [H1 H2]; split; [|assumption]).
      * intros ->. now apply H1.
      * intros H. now apply StorageFacts.storageKey_inj in H.
Qed.

(** C1.  A record written with [set(R.id, R)] is read back by
    [get(R.id)]: whatever the store held before, the write resolves and
    the read resolves with the value of [R], which denotes exactly [R]
    (every field equal). *)
Theorem set_then_get_round_trip
        (ns : string) (R : ChecklistData) (s : LocalStorage.store) :
  let key := JS.toString (id R) in
  let written := Storage.set ns key (Record.toJSON R) s in
  snd written = Storage.Resolved tt /\
  Storage.get ns key (fst written) =
    Storage.Resolved (Some (Record.toJSON R)) /\
  Record.fromJSON (Record.toJSON R) = Some R.
Proof.
  cbv zeta. split; [reflexivity|]. split.
  - apply StorageFacts.get_after_set.
  - apply RecordFacts.fromJSON_toJSON.
Qed.

(** The scenario of the specification for C1, computed: the Groceries
    record stored under ["1"] in an empty store and read back. *)
Example groceries_round_trip :
  let R := {| complete := false; done := []; id := 1;
              tasks := ["Milk"; "Eggs"]; time := 1000;
              title := "Groceries" |} in
  let s := fst (Storage.set namespace "1" (Record.toJSON R) LocalStorage.empty) in
  LocalStorage.keys s = ["checklist-1"] /\
  Storage.get namespace "1" s = Storage.Resolved (Some (Record.toJSON R)) /\
  Record.fromJSON (Record.toJSON R) = Some R.
Proof. vm_compute. repeat split. Qed.

(** C6.  After any sequence of [set] and [delete] calls, starting from an
    empty store, [keys()] resolves with exactly the keys [k] (prefix
    stripped, each once) for which [set(k, _)] was called with no
    [delete(k)] after it. *)
Theorem keys_are_the_surviving_sets (ns : string) (calls : list Storage.call) :
  exists ks,
    Storage.keys ns (Storage.performAll ns calls LocalStorage.empty) =
      Storage.Resolved ks /\
    NoDup ks /\
    forall k, In k ks <-> survives k calls.
Proof.
  destruct (suffixes_after_calls ns calls LocalStorage.empty)
    as [Hnd Hin]; [constructor|reflexivity|].
  eexists. split; [apply StorageFacts.keys_suffixes|]. split.
  - now apply StorageFacts.NoDup_suffixes.
  - exact Hin.
Qed.

(** The scenario of the specification for C6: two checklists stored under
    1 and 2, then 1 deleted. *)
Example keys_scenario :
  let v := JSON.Object [] in
  Storage.keys namespace
    (Storage.performAll namespace
       [Storage.SetCall "1" v; Storage.SetCall "2" v] LocalStorage.empty) =
    Storage.Resolved ["1"; "2"] /\
  Storage.keys namespace
    (Storage.performAll namespace
       [Storage.SetCall "1" v; Storage.SetCall "2" v; Storage.DeleteCall "1"]
       LocalStorage.empty) =
    Storage.Resolved ["2"].
Proof. vm_compute. split; reflexivity. Qed.

(** Entries that other code keeps in the same store, outside the
    namespace, are not listed. *)
Example keys_ignore_other_entries :
  let s0 := [("theme", "dark"); ("checklists", "[]")] in
  let v := JSON.Object [] in
  Storage.keys namespace
    (Storage.performAll namespace
       [Storage.SetCall "7" v; Storage.DeleteCall "8"; Storage.SetCall "" v] s0) =
    Storage.Resolved ["7"; ""].
Proof. reflexivity. Qed.

(** C7.  [delete(k)] resolves, and a [get(k)] after it resolves with no
    value (it is not rejected), whether or not the store held an entry
    for [k]. *)
Theorem delete_then_get_is_empty
        (ns key : string) (s : LocalStorage.store) :
  let removed := Storage.delete ns key s in
  snd removed = Storage.Resolved tt /\
  Storage.get ns key (fst removed) = Storage.Resolved None.
Proof.
  cbv zeta. split; [reflexivity|]. apply StorageFacts.get_after_delete.
Qed.

(* ===================================================================== *)
(** ** Properties of the slides *)
(* ===================================================================== *)

(** What a read under [key] finds once a handler that wrote [value] there
    as its only storage call has run. *)
Lemma get_after_single_write
      (key : string) (value : ChecklistData) (es : list effect)
      (s : LocalStorage.store) :
  storageCalls es = [Storage.SetCall key (Record.toJSON value)] ->
  Storage.get namespace key (commit es s) =
    Storage.Resolved (Some (Record.toJSON value)).
Proof.
  intros E. unfold commit. rewrite E.
  apply (StorageFacts.get_after_set namespace key (Record.toJSON value) s).
Qed.

(** C3.  [View.setAsComplete] issues exactly one storage call, a write
    under the record's id; the written record has [done] equal to [tasks]
    and [complete] true, its other fields are those of the input record;
    one read of that key afterwards yields the written record. *)
Theorem setAsComplete_single_write
        (data : ref) (h : heap) (s : LocalStorage.store) :
  let r := deref h data in
  let es := View.setAsComplete data h in
  exists written,
    storageCalls es =
      [Storage.SetCall (JS.toString (id r)) (Record.toJSON written)] /\
    writes es = [(JS.toString (id r), written)] /\
    done written = tasks r /\ complete written = true /\
    id written = id r /\ title written = title r /\
    time written = time r /\ tasks written = tasks r /\
    Storage.get namespace (JS.toString (id r)) (commit es s) =
      Storage.Resolved (Some (Record.toJSON written)) /\
    Record.fromJSON (Record.toJSON written) = Some written.
Proof.
  cbv zeta.
  exists (assign_complete_done (deref h data) true (tasks (deref h data))).
  repeat (split; [reflexivity|]). split.
  - now apply get_after_single_write.
  - apply RecordFacts.fromJSON_toJSON.
Qed.




Lemma filter_nonEmpty_all (inputs : list string) :
  Forall (fun t => t <> "") (filter JS.nonEmpty inputs).
Proof.
  apply Forall_forall. intros t Ht. apply filter_In in Ht.
  now apply JSFacts.nonEmpty_true.
Qed.

Lemma filter_nonEmpty_none (inputs : list string) :
  (forall i, In i inputs -> i = "") -> filter JS.nonEmpty inputs = [].
Proof.
  induction inputs as [|i l IH]; intros H; [reflexivity|].
  cbn [filter]. rewrite (H i (or_introl eq_refl)). cbn.
  apply IH. intros j Hj. apply H. now right.
Qed.

(** C10.  Every record that [Add.saveChecklist] writes has an empty
    [done], [complete] false, a non-empty title and a non-empty list of
    non-empty tasks; with no checklist title, or with no non-empty text
    field, the handler has no effect at all (no storage call, no
    callback). *)
Theorem saveChecklist_writes_valid_record
        (checklist : option Checklist.component) (inputs : list string)
        (env : Add.environment) :
  let es := Add.saveChecklist checklist inputs env in
  (forall key written,
      In (key, written) (writes es) ->
      done written = [] /\ complete written = false /\
      title written <> "" /\ tasks written <> [] /\
      Forall (fun t => t <> "") (tasks written)) /\
  (match checklist with
   | Some c => Checklist.title c = ""
   | None => True
   end \/ (forall i, In i inputs -> i = "") ->
   es = []).
Proof.
  cbv zeta. unfold Add.saveChecklist. split.
  - intros key written.
    destruct checklist as [c|]; [|intros []].
    destruct (JS.nonEmpty (Checklist.title c)) eqn:Et; [|intros []].
    pose proof (filter_nonEmpty_all inputs) as Hall.
    destruct (filter JS.nonEmpty inputs) as [|t ts]; [intros []|].
    destruct (Add.generateUUID env) as [uuid|]; [|intros []].
    intros [H|[]]. injection H as <- <-. cbn.
    repeat split; try assumption; try discriminate.
    now apply JSFacts.nonEmpty_true.
  - intros [H|H].
    + destruct checklist as [c|]; [|reflexivity]. now rewrite H.
    + destruct checklist as [c|]; [|reflexivity].
      rewrite (filter_nonEmpty_none inputs H).
      now destruct (JS.nonEmpty (Checklist.title c)).
Qed.

Lemma saveChecklist_writes_valid_record_witness :
  let env := {| Add.baseArray := [11; 12; 13; 14; 15; 16; 17; 18];
                Add.random := 1 # 2; Add.now_uuid := 1000;
                Add.now_time := 1001 |} in
  let c := Checklist.updateTitle "Groceries" (Checklist.mount None "edit" (fun _ =>
             {| complete := false; done := []; id := 0; tasks := [];
                time := 0; title := "" |})) in
  let written := {| complete := false; done := []; id := 1014;
                    tasks := ["Milk"; "Eggs"]; time := 1001;
                    title := "Groceries" |} in
  In ("1014", written)
     (writes (Add.saveChecklist (Some c) ["Milk"; ""; "Eggs"] env)) /\
  Forall (fun t => t <> "") (tasks written) /\
  Add.saveChecklist (Some c) [""; ""] env = [].
Proof.
  cbv zeta.
  match goal with
  | |- ?P /\ _ =>
      assert (Hin : P) by (left; reflexivity);
      split; [exact Hin|]
  end.
  split.
  - match type of Hin with
    | In _ (writes (Add.saveChecklist ?c ?i ?e)) =>
        apply (proj1 (saveChecklist_writes_valid_record c i e) _ _ Hin)
    end.
  - match goal with
    | |- Add.saveChecklist ?c ?i ?e = [] =>
        apply (proj2 (saveChecklist_writes_valid_record c i e))
    end.
    right. intros i [<-|[<-|[]]]; reflexivity.
Defined.

(** *** The generated id *)

Lemma seed_in_range (random : Q) :
  (0 <= random)%Q -> (random < 1)%Q ->
  0 <= Qfloor (random * inject_Z (8 - 1 - 0) + inject_Z 0) < 7.
Proof.
  intros H0 H1.
  set (x := (random * inject_Z (8 - 1 - 0) + inject_Z 0)%Q).
  assert (Hx0 : (0 <= x)%Q).
  { unfold x. unfold Qle in *. destruct random as [n d].
    cbn in *. nia. }
  assert (Hx7 : (x < inject_Z 7)%Q).
  { unfold x. unfold Qlt in *. destruct random as [n d].
    cbn in *. nia. }
  split.
  - change 0 with (Qfloor (inject_Z 0)). now apply Qfloor_resp_le.
  - pose proof (Qle_lt_trans _ _ _ (Qfloor_le x) Hx7) as H.
    now rewrite <- Zlt_Qlt in H.
Qed.

Lemma at_index_in_range {A : Type} (arr : list A) (index : Z) :
  0 <= index < Z.of_nat (List.length arr) ->
  exists x, JS.at_index arr index = Some x /\ In x arr.
Proof.
  intros H. unfold JS.at_index.
  destruct (index <? 0) eqn:E; [apply Z.ltb_lt in E; lia|].
  destruct (nth_error arr (Z.to_nat index)) as [x|] eqn:N.
  - exists x. split; [reflexivity|]. eapply nth_error_In, N.
  - apply nth_error_None in N. lia.
Qed.

(** C9, as the code has it.  For every outcome of the random draws and
    every non-negative timestamp, the generated id is the drawn 32-bit
    value plus the timestamp: a non-negative integer, positive as soon as
    the timestamp or the drawn value is. *)
Theorem generateUUID_non_negative (env : Add.environment) :
  Add.wellFormed env ->
  0 <= Add.now_uuid env ->
  exists uuid,
    In uuid (Add.baseArray env) /\
    Add.generateUUID env = Some (uuid + Add.now_uuid env) /\
    0 <= uuid + Add.now_uuid env /\
    (0 < Add.now_uuid env \/ 0 < uuid -> 0 < uuid + Add.now_uuid env).
Proof.
  intros [Hlen [Hall [H0 H1]]] Hnow. unfold Add.generateUUID.
  pose proof (seed_in_range (Add.random env) H0 H1) as Hseed.
  destruct (at_index_in_range (Add.baseArray env)
              (Qfloor (Add.random env * inject_Z (8 - 1 - 0) + inject_Z 0)))
    as [uuid [E Hin]]; [rewrite Hlen; lia|].
  exists uuid. rewrite E.
  rewrite Forall_forall in Hall. specialize (Hall uuid Hin).
  split; [assumption|]. split; [f_equal; lia|]. lia.
Qed.

Lemma generateUUID_non_negative_witness :
  let env := {| Add.baseArray := [11; 12; 13; 14; 15; 16; 17; 18];
                Add.random := 1 # 2; Add.now_uuid := 1000;
                Add.now_time := 1001 |} in
  Add.wellFormed env /\ 0 <= Add.now_uuid env /\
  exists uuid,
    In uuid (Add.baseArray env) /\
    Add.generateUUID env = Some (uuid + Add.now_uuid env) /\
    0 <= uuid + Add.now_uuid env /\
    (0 < Add.now_uuid env \/ 0 < uuid -> 0 < uuid + Add.now_uuid env).
Proof.
  cbv zeta.
  match goal with
  | |- ?W /\ ?N /\ _ =>
      assert (Hw : W)
        by (split; [reflexivity|split; [repeat constructor; cbn; lia|
            split; [discriminate|reflexivity]]]);
      assert (Hn : N) by (cbn; lia);
      split; [exact Hw|split; [exact Hn|]]
  end.
  exact (generateUUID_non_negative _ Hw Hn).
Defined.

(** C9 as stated fails: when every drawn value is 0 and the clock reads 0
    (a non-negative timestamp), the id is 0, which is not positive. *)
Lemma generateUUID_zero :
  let env := {| Add.baseArray := [0; 0; 0; 0; 0; 0; 0; 0];
                Add.random := 0; Add.now_uuid := 0; Add.now_time := 0 |} in
  Add.wellFormed env /\ 0 <= Add.now_uuid env /\
  Add.generateUUID env = Some 0 /\ ~ 0 < 0.
Proof.
  cbv zeta. split.
  - split; [reflexivity|]. split; [repeat constructor; cbn; lia|].
    split; [discriminate|reflexivity].
  - split; [cbn; lia|]. split; [reflexivity|lia].
Qed.

(* ===================================================================== *)
(** ** Properties of the checklist component *)
(* ===================================================================== *)

Lemma deref_assign_same (h : heap) (p : ref) (v : ChecklistData) :
  deref (assign h p v) p = v.
Proof. unfold deref, assign. now rewrite Nat.eqb_refl. Qed.

Lemma deref_assign_other (h : heap) (p q : ref) (v : ChecklistData) :
  q <> p -> deref (assign h p v) q = deref h q.
Proof.
  intros H. unfold deref, assign.
  destruct (Nat.eqb q p) eqn:E; [apply Nat.eqb_eq in E; congruence|reflexivity].
Qed.

Lemma set_done_same (r : ChecklistData) : set_done r (done r) = r.
Proof. now destruct r. Qed.

Lemma completeTask_toggled (task : string) (d : list string) :
  let index := JS.findIndex (fun value => String.eqb value task) d in
  (if JS.truthy (JS.at_index d index)
   then JS.splice1 index d
   else JS.push d task) = toggled task d.
Proof.
  cbv zeta. unfold toggled, JS.includes, removeFirst.
  set (pred := fun value => String.eqb value task).
  assert (Hext : forall x, String.eqb task x = pred x)
    by (intros x; apply String.eqb_sym).
  rewrite (JSFacts.existsb_ext' _ _ d Hext),
          (JSFacts.removeFirstBy_ext _ _ d Hext).
  destruct (existsb pred d) eqn:E.
  - destruct (JSFacts.findIndex_present pred d E) as [_ [x [-> Hx]]].
    unfold pred in Hx. apply String.eqb_eq in Hx. subst x.
    cbn [JS.truthy andb]. destruct (JS.nonEmpty task); [|reflexivity].
    now apply JSFacts.splice1_findIndex.
  - rewrite (JSFacts.findIndex_absent pred d E). reflexivity.
Qed.

Lemma completeTask_result
      (task : string) (c : Checklist.component) (h : heap) (p : ref) :
  Checklist.state_data c = Some p ->
  let r := deref h p in
  let r' := set_done r (toggled task (done r)) in
  Checklist.completeTask task c h =
  (Checklist.with_state_data c (Some p), assign h p r',
   [StorageSet (JS.toString (id r)) r']).
Proof.
  intros Hp. cbv zeta. unfold Checklist.completeTask. rewrite Hp.
  rewrite completeTask_toggled. reflexivity.
Qed.




Lemma removeInput_result
      (id : Z) (task : string) (c : Checklist.component) (h : heap) (p : ref) :
  Checklist.state_data c = Some p ->
  let result := Checklist.removeInput id task c h in
  Checklist.state_data (fst result) = Some p /\
  Checklist.state_inputElements (fst result) =
    (if removable c
     then filter (fun elem => negb (Input.id elem =? id))
                 (Checklist.state_inputElements c)
     else Checklist.state_inputElements c) /\
  deref (snd result) p =
    set_done (deref h p)
      (if prunes c then removeFirst task (done (deref h p))
       else done (deref h p)) /\
  (forall q, q <> p -> deref (snd result) q = deref h q).
Proof.
  intros Hp. cbv zeta.
  unfold Checklist.removeInput, prunes, removable, Checklist.focusAddButton,
    Checklist.rendersEdit.
  destruct (1 <? Z.of_nat (List.length (Checklist.state_inputElements c)));
    cbn [andb Checklist.with_inputs Checklist.state_data Checklist.props_mode].
  - destruct (Input.editMode (Checklist.props_mode c)).
    + rewrite Hp.
      destruct (JS.includes (done (deref h p)) task) eqn:E; cbn [fst snd].
      * repeat split; try reflexivity.
        -- rewrite deref_assign_same. unfold JS.indexOf, removeFirst.
           now rewrite JSFacts.splice1_findIndex.
        -- intros q Hq. now apply deref_assign_other.
      * repeat split; try reflexivity; try assumption.
        unfold removeFirst. unfold JS.includes in E.
        rewrite (JSFacts.removeFirstBy_absent _ _ E).
        now rewrite set_done_same.
    + cbn [fst snd Checklist.with_inputs Checklist.state_data
           Checklist.state_inputElements].
      repeat split; try assumption; try reflexivity.
      now rewrite set_done_same.
  - cbn [fst snd Checklist.with_inputs Checklist.state_data
         Checklist.state_inputElements].
    repeat split; try assumption; try reflexivity.
    now rewrite set_done_same.
Qed.




(** *** The subset invariant *)

Lemma toggled_incl (task : string) (d ts : list string) :
  incl d ts -> In task ts -> incl (toggled task d) ts.
Proof.
  intros Hd Ht. unfold toggled.
  destruct (JS.includes d task && JS.nonEmpty task).
  - eapply incl_tran; [apply JSFacts.removeFirstBy_incl|exact Hd].
  - apply incl_app; [exact Hd|]. intros x [<-|[]]. exact Ht.
Qed.

(** One operation keeps the component on its record, leaves [tasks] alone
    and keeps [done] inside [tasks]. *)
Lemma step_preserves
      (op : Session.operation) (c : Checklist.component) (h : heap) (p : ref) :
  Checklist.state_data c = Some p ->
  incl (done (deref h p)) (tasks (deref h p)) ->
  (forall task, op = Session.CompleteTask task -> In task (tasks (deref h p))) ->
  let result := Session.step op c h in
  Checklist.state_data (fst (fst result)) = Some p /\
  tasks (deref (snd (fst result)) p) = tasks (deref h p) /\
  incl (done (deref (snd (fst result)) p)) (tasks (deref h p)).
Proof.
  intros Hp Hincl Hop. cbv zeta. destruct op as [focus|id task|task];
    cbn [Session.step].
  - cbn [fst snd Checklist.createInput Checklist.with_inputs
         Checklist.state_data]. tauto.
  - destruct (removeInput_result id task c h p Hp) as [Hs [_ [Hd _]]].
    cbv zeta in Hs, Hd.
    destruct (Checklist.removeInput id task c h) as [c' h'].
    cbn [fst snd] in *. rewrite Hd. cbn [tasks done set_done].
    split; [assumption|]. split; [reflexivity|].
    destruct (prunes c); [|assumption].
    eapply incl_tran; [apply JSFacts.removeFirstBy_incl|exact Hincl].
  - rewrite (completeTask_result task c h p Hp). cbn [fst snd].
    rewrite deref_assign_same. cbn [tasks done set_done
      Checklist.with_state_data Checklist.state_data].
    split; [reflexivity|]. split; [reflexivity|].
    apply toggled_incl; [assumption|]. now apply Hop.
Qed.

Lemma insertLoop_values (ts : list string) (created : Z)
      (acc : list Input.Props) (c : Checklist.component) (h : heap)
      (el : Input.Props) :
  In el (snd (Checklist.insertLoop ts created acc c h)) ->
  In el acc \/ exists t, Input.value el = Some t /\ In t ts.
Proof.
  revert created acc. induction ts as [|t ts IH]; intros created acc;
    cbn [Checklist.insertLoop snd]; [tauto|].
  intros H. apply IH in H. destruct H as [H|[t' [Hv Hin]]].
  - apply in_app_or in H. destruct H as [H|[<-|[]]]; [now left|].
    right. exists t. split; [reflexivity|now left].
  - right. exists t'. split; [assumption|now right].
Qed.

Lemma completeTask_value (el : Input.Props) (task : string) :
  Input.completeTask el = Some task -> Input.value el = Some task.
Proof.
  unfold Input.completeTask.
  destruct (Input.onComplete el && Input.valueTruthy el); [tauto|discriminate].
Qed.

Lemma mount_checkboxes (p : ref) (mode : string) (h : heap) :
  let c := Checklist.mount (Some p) mode h in
  Checklist.state_data c = Some p /\
  checkboxesWithin c (tasks (deref h p)).
Proof.
  cbv zeta. unfold Checklist.mount, Checklist.componentDidMount,
    Checklist.insertInputs.
  cbn [Checklist.constructor Checklist.props_data Checklist.with_state_data
       Checklist.createdInputs].
  match goal with
  | |- context [Checklist.insertLoop ?ts ?n ?acc ?c ?h] =>
      pose proof (fun el => insertLoop_values ts n acc c h el) as Hv;
      destruct (Checklist.insertLoop ts n acc c h) as [created els]
  end.
  cbn [snd Checklist.with_inputs Checklist.state_data
       Checklist.state_inputElements] in *.
  split; [reflexivity|].
  intros el task Hin Hc. apply completeTask_value in Hc.
  destruct (Hv el Hin) as [[]|[t [Ht Hts]]]. congruence.
Qed.

Lemma step_checkboxes
      (op : Session.operation) (c : Checklist.component) (h : heap)
      (ts : list string) :
  checkboxesWithin c ts ->
  checkboxesWithin (fst (fst (Session.step op c h))) ts.
Proof.
  intros Hc. destruct op as [focus|id task|task]; cbn [Session.step].
  - cbn [fst Checklist.createInput Checklist.with_inputs].
    intros el t Hin Ht. cbn [Checklist.state_inputElements] in Hin.
    apply in_app_or in Hin. destruct Hin as [Hin|[<-|[]]].
    + now apply (Hc el).
    + discriminate.
  - assert (Hsub : incl (Checklist.state_inputElements
                           (fst (Checklist.removeInput id task c h)))
                        (Checklist.state_inputElements c)).
    { unfold Checklist.removeInput.
      destruct (1 <? Z.of_nat (List.length (Checklist.state_inputElements c))).
      - cbn [Checklist.with_inputs Checklist.state_data].
        destruct (Checklist.focusAddButton _);
          [destruct (Checklist.state_data c) as [p|];
           [destruct (JS.includes (done (deref h p)) task)|]|];
          cbn [fst Checklist.with_state_data Checklist.with_inputs
               Checklist.state_inputElements];
          intros el Hin; now apply filter_In in Hin.
      - cbn [fst Checklist.with_inputs Checklist.state_inputElements].
        apply incl_refl. }
    destruct (Checklist.removeInput id task c h) as [c' h'].
    cbn [fst] in *. intros el t Hin. apply (Hc el t). now apply Hsub.
  - unfold Checklist.completeTask.
    destruct (Checklist.state_data c) as [p|]; cbn [fst]; [|assumption].
    intros el t Hin. now apply (Hc el t).
Qed.

Lemma request_complete
      (e : Session.event) (c : Checklist.component) (ts : list string)
      (task : string) :
  checkboxesWithin c ts ->
  Session.request e c = Some (Session.CompleteTask task) -> In task ts.
Proof.
  intros Hc. destruct e as [|n text|n]; cbn [Session.request].
  - destruct (Checklist.rendersEdit c); discriminate.
  - destruct (nth_error (Checklist.state_inputElements c) n) as [el|];
      [|discriminate].
    destruct (Input.editMode (Input.mode el) && Input.isRemovable el);
      discriminate.
  - destruct (nth_error (Checklist.state_inputElements c) n) as [el|] eqn:E;
      [|discriminate].
    destruct (Input.editMode (Input.mode el)); [discriminate|].
    destruct (Input.completeTask el) as [t|] eqn:Et; [|discriminate].
    intros H. injection H as <-.
    apply (Hc el t); [eapply nth_error_In, E|assumption].
Qed.

Lemma handleAll_preserves
      (events : list Session.event) (c : Checklist.component) (h : heap)
      (p : ref) :
  Checklist.state_data c = Some p ->
  checkboxesWithin c (tasks (deref h p)) ->
  incl (done (deref h p)) (tasks (deref h p)) ->
  let h' := snd (fst (Session.handleAll events c h)) in
  incl (done (deref h' p)) (tasks (deref h' p)) /\
  tasks (deref h' p) = tasks (deref h p).
Proof.
  revert c h. induction events as [|e events IH];
    intros c h Hp Hc Hincl; cbv zeta.
  - cbn [Session.handleAll fst snd]. tauto.
  - cbn [Session.handleAll]. unfold Session.handle.
    destruct (Session.request e c) as [op|] eqn:Er.
    + destruct (step_preserves op c h p Hp Hincl) as [Hs [Ht Hd]].
      { intros task ->. eapply request_complete; eassumption. }
      pose proof (step_checkboxes op c h _ Hc) as Hc'.
      cbv zeta in Hs, Ht, Hd.
      destruct (Session.step op c h) as [[c1 h1] es1]. cbn [fst snd] in *.
      rewrite <- Ht in Hd, Hc'.
      destruct (IH c1 h1 Hs Hc' Hd) as [IH1 IH2]. cbv zeta in IH1, IH2.
      destruct (Session.handleAll events c1 h1) as [[c2 h2] es2].
      cbn [fst snd] in *. split; [assumption|congruence].
    + destruct (IH c h Hp Hc Hincl) as [IH1 IH2]. cbv zeta in IH1, IH2.
      destruct (Session.handleAll events c h) as [[c2 h2] es2].
      cbn [fst snd] in *. tauto.
Qed.

(** C2, as the code has it.  For a record whose [done] is inside its
    [tasks], every sequence of add-task, remove-task and complete-task
    operations on the mounted checklist leaves [done] inside [tasks];
    these operations never change [tasks] itself. *)
Theorem done_stays_within_tasks
        (p : ref) (mode : string) (events : list Session.event) (h : heap) :
  incl (done (deref h p)) (tasks (deref h p)) ->
  let h' := Session.session p mode events h in
  incl (done (deref h' p)) (tasks (deref h' p)) /\
  tasks (deref h' p) = tasks (deref h p).
Proof.
  intros Hincl. unfold Session.session.
  destruct (mount_checkboxes p mode h) as [Hp Hc].
  now apply handleAll_preserves.
Qed.

Lemma done_stays_within_tasks_witness :
  let r := {| complete := false; done := ["Milk"]; id := 1;
              tasks := ["Milk"; "Eggs"]; time := 1000;
              title := "Groceries" |} in
  let h : heap := fun _ => r in
  let ticks := [ Session.ClickCheckbox 1; Session.ClickCheckbox 0;
                 Session.ClickCheckbox 5; Session.ClickAdd ] in
  let edits := [ Session.ClickAdd; Session.ClickRemove 0 "Milk";
                 Session.ClickCheckbox 0 ] in
  incl (done r) (tasks r) /\
  done (deref (Session.session 0%nat "view" ticks h) 0%nat) = ["Eggs"] /\
  done (deref (Session.session 0%nat "edit" edits h) 0%nat) = [] /\
  incl (done (deref (Session.session 0%nat "view" ticks h) 0%nat))
       (tasks (deref (Session.session 0%nat "view" ticks h) 0%nat)).
Proof.
  cbv zeta.
  match goal with
  | |- ?P /\ _ =>
      assert (H : P) by (intros x [<-|[]]; left; reflexivity);
      split; [exact H|]
  end.
  split; [reflexivity|]. split; [reflexivity|].
  match goal with
  | |- context [Session.session ?p ?m ?ev ?h] =>
      exact (proj1 (done_stays_within_tasks p m ev h H))
  end.
Defined.

(** C2 as stated fails on a record whose [done] is not inside its
    [tasks] to begin with, and the application produces such records:
    saving the Edit form after retyping the completed task A as X writes
    tasks X with done A; on that record, ticking X leaves A in [done]. *)
Lemma done_outside_tasks_after_rename :
  let r := {| complete := false; done := ["A"]; id := 1;
              tasks := ["A"]; time := 1000; title := "T" |} in
  let renamed := {| complete := false; done := ["A"]; id := 1;
                    tasks := ["X"]; time := 1000; title := "T" |} in
  let h : heap := fun _ => r in
  let h1 : heap := fun _ => renamed in
  let h' := Session.session 0%nat "view" [Session.ClickCheckbox 0] h1 in
  writes (Edit.saveChanges 0%nat
            (Some (Checklist.mount (Some 0%nat) "edit" h)) ["X"] h) =
    [("1", renamed)] /\
  done (deref h' 0%nat) = ["A"; "X"] /\
  tasks (deref h' 0%nat) = ["X"] /\
  In "A" (done (deref h' 0%nat)) /\ ~ In "A" (tasks (deref h' 0%nat)).
Proof.
  cbv zeta. split; [reflexivity|]. split; [reflexivity|].
  split; [reflexivity|]. split; [left; reflexivity|].
  intros [H|[]]. discriminate.
Qed.

(* ===================================================================== *)
(** ** Further properties of the checklist component *)
(* ===================================================================== *)

Lemma insertLoop_inputsFor
      (ts : list string) (created : Z) (acc : list Input.Props)
      (c : Checklist.component) (h : heap) :
  Checklist.insertLoop ts created acc c h =
  (created + Z.of_nat (List.length ts), acc ++ inputsFor c h created ts).
Proof.
  revert created acc. induction ts as [|task ts IH]; intros created acc.
  - cbn. now rewrite Z.add_0_r, app_nil_r.
  - cbn [Checklist.insertLoop inputsFor List.length]. rewrite IH.
    rewrite <- app_assoc. cbn [app]. f_equal. lia.
Qed.

Lemma mount_inputs (p : ref) (mode : string) (h : heap) :
  let c := Checklist.mount (Some p) mode h in
  let mounted :=
    Checklist.with_state_data (Checklist.constructor (Some p) mode h) (Some p) in
  Checklist.state_inputElements c = inputsFor mounted h 0 (tasks (deref h p)) /\
  Checklist.createdInputs c = Z.of_nat (List.length (tasks (deref h p))) /\
  Checklist.props_mode c = mode /\
  Checklist.state_data c = Some p /\
  Checklist.title c = title (deref h p).
Proof.
  cbv zeta. unfold Checklist.mount, Checklist.componentDidMount,
    Checklist.insertInputs.
  cbn [Checklist.constructor Checklist.props_data Checklist.with_state_data
       Checklist.createdInputs].
  rewrite insertLoop_inputsFor. cbn. repeat split; reflexivity.
Qed.

Lemma inputsFor_values (c : Checklist.component) (h : heap) (created : Z)
      (ts : list string) :
  map Input.value (inputsFor c h created ts) = map Some ts.
Proof.
  revert created. induction ts as [|t ts IH]; intros created; [reflexivity|].
  cbn [inputsFor map Input.value]. now rewrite IH.
Qed.


Lemma inputsFor_ids (c : Checklist.component) (h : heap) (created : Z)
      (ts : list string) :
  map Input.id (inputsFor c h created ts) =
  countFrom (created + 1) (List.length ts).
Proof.
  revert created. induction ts as [|t ts IH]; intros created; [reflexivity|].
  cbn [inputsFor map Input.id List.length countFrom]. now rewrite IH.
Qed.

Lemma inputsFor_props (c : Checklist.component) (h : heap) (created : Z)
      (ts : list string) (el : Input.Props) :
  In el (inputsFor c h created ts) ->
  exists task,
    In task ts /\ Input.value el = Some task /\
    Input.checked el = Some (Checklist.isComplete task c h) /\
    Input.isRemovable el = Input.editMode (Checklist.props_mode c) /\
    Input.mode el = Checklist.props_mode c /\
    Input.onComplete el = true.
Proof.
  revert created. induction ts as [|t ts IH]; intros created; [intros []|].
  cbn [inputsFor]. intros [<-|H].
  - exists t. cbn. repeat split; try reflexivity. now left.
  - destruct (IH _ H) as [task [Hin Hrest]]. exists task.
    split; [now right|exact Hrest].
Qed.

Lemma countFrom_bounds (first : Z) (count : nat) (x : Z) :
  In x (countFrom first count) <-> first <= x < first + Z.of_nat count.
Proof.
  revert first. induction count as [|n IH]; intros first.
  - cbn. lia.
  - cbn [countFrom In]. rewrite IH. lia.
Qed.

Lemma countFrom_NoDup (first : Z) (count : nat) : NoDup (countFrom first count).
Proof.
  revert first. induction count as [|n IH]; intros first; cbn [countFrom];
    constructor; [|apply IH].
  rewrite countFrom_bounds. lia.
Qed.

Lemma countFrom_length (first : Z) (count : nat) :
  List.length (countFrom first count) = count.
Proof.
  revert first. induction count as [|n IH]; intros first; cbn; [|rewrite IH];
    reflexivity.
Qed.

(** X1.  A checklist mounted on a record shows one input per task, in
    the order of the tasks, numbered 1, 2, ... (so no two share an id)
    with the counter left at the number of tasks; each input is ticked
    exactly when its task is in [done], carries the mode of the
    checklist, is removable in edit mode only and reports
    completions. *)
Theorem mount_shows_the_tasks (p : ref) (mode : string) (h : heap) :
  let c := Checklist.mount (Some p) mode h in
  let r := deref h p in
  map Input.value (Checklist.state_inputElements c) = map Some (tasks r) /\
  shownIds c = countFrom 1 (List.length (tasks r)) /\
  NoDup (shownIds c) /\
  Checklist.createdInputs c = Z.of_nat (List.length (tasks r)) /\
  forall el,
    In el (Checklist.state_inputElements c) ->
    exists task,
      In task (tasks r) /\ Input.value el = Some task /\
      Input.checked el = Some (JS.includes (done r) task) /\
      Input.isRemovable el = Input.editMode mode /\
      Input.mode el = mode /\ Input.onComplete el = true.
Proof.
  cbv zeta. destruct (mount_inputs p mode h) as [Hi [Hc _]].
  cbv zeta in Hi, Hc. unfold shownIds. rewrite Hi, Hc.
  rewrite inputsFor_values, inputsFor_ids.
  repeat split; try reflexivity.
  - apply countFrom_NoDup.
  - intros el Hin. apply inputsFor_props in Hin. exact Hin.
Qed.




Lemma removeFirst_appended (task : string) (d : list string) :
  ~ In task d -> removeFirst task (d ++ [task]) = d.
Proof.
  unfold removeFirst. induction d as [|x d IH]; cbn [app removeFirstBy In].
  - intros _. now rewrite String.eqb_refl.
  - intros H. destruct (String.eqb task x) eqn:E.
    + apply String.eqb_eq in E. subst x. exfalso. apply H. now left.
    + f_equal. apply IH. tauto.
Qed.

Lemma removeFirstBy_length {A : Type} (pred : A -> bool) (l : list A) :
  existsb pred l = true ->
  S (List.length (removeFirstBy pred l)) = List.length l.
Proof.
  induction l as [|x l IH]; cbn [existsb removeFirstBy List.length];
    [discriminate|].
  destruct (pred x); cbn [orb]; [reflexivity|].
  intros H. now rewrite <- (IH H).
Qed.

Lemma removeFirstBy_NoDup {A : Type} (pred : A -> bool) (l : list A) :
  NoDup l -> NoDup (removeFirstBy pred l).
Proof.
  induction 1 as [|x l Hx Hl IH]; cbn [removeFirstBy]; [constructor|].
  destruct (pred x); [assumption|]. constructor; [|assumption].
  intros Hin. apply Hx. eapply JSFacts.removeFirstBy_incl, Hin.
Qed.

Lemma NoDup_snoc {A : Type} (l : list A) (x : A) :
  NoDup l -> ~ In x l -> NoDup (l ++ [x]).
Proof.
  induction 1 as [|y l Hy Hl IH]; cbn [app]; intros Hx.
  - constructor; [intros []|constructor].
  - constructor.
    + intros Hin. apply in_app_or in Hin. destruct Hin as [Hin|[->|[]]].
      * contradiction.
      * apply Hx. now left.
    + apply IH. intros Hin. apply Hx. now right.
Qed.

Lemma toggled_NoDup (task : string) (d : list string) :
  task <> "" -> NoDup d -> NoDup (toggled task d).
Proof.
  intros Ht Hd. unfold toggled. apply JSFacts.nonEmpty_true in Ht.
  rewrite Ht, andb_true_r. destruct (JS.includes d task) eqn:E.
  - now apply removeFirstBy_NoDup.
  - apply NoDup_snoc; [assumption|]. now apply JSFacts.includes_not_In.
Qed.

(** X3.  Ticking an open, non-empty task and then unticking it leaves the
    record exactly as it was, and no other record is touched; both
    clicks write to storage under the id of the record, the first write
    with the task appended to [done], the second with the record as it
    was. *)
Theorem tick_then_untick_restores
        (task : string) (c : Checklist.component) (h : heap) (p : ref) :
  Checklist.state_data c = Some p ->
  task <> "" ->
  ~ In task (done (deref h p)) ->
  let r := deref h p in
  let first := Checklist.completeTask task c h in
  let second :=
    Checklist.completeTask task (fst (fst first)) (snd (fst first)) in
  deref (snd (fst second)) p = r /\
  (forall q, q <> p -> deref (snd (fst second)) q = deref h q) /\
  writes (snd first ++ snd second) =
    [ (JS.toString (id r), set_done r (done r ++ [task]));
      (JS.toString (id r), r) ].
Proof.
  intros Hp Ht Hout. cbv zeta.
  rewrite (completeTask_result task c h p Hp). cbn [fst snd].
  rewrite (completeTask_result task (Checklist.with_state_data c (Some p))
             _ p eq_refl). cbn [fst snd].
  rewrite !deref_assign_same.
  assert (H1 : toggled task (done (deref h p)) = done (deref h p) ++ [task]).
  { unfold toggled. apply JSFacts.includes_not_In in Hout. now rewrite Hout. }
  rewrite H1. cbn [done set_done id complete tasks time title].
  assert (H2 : toggled task (done (deref h p) ++ [task]) = done (deref h p)).
  { unfold toggled. apply JSFacts.nonEmpty_true in Ht. rewrite Ht, andb_true_r.
    assert (Hin : JS.includes (done (deref h p) ++ [task]) task = true).
    { apply JSFacts.includes_In, in_or_app. right. now left. }
    rewrite Hin. now apply removeFirst_appended. }
  rewrite H2.
  assert (H3 : forall d, set_done (set_done (deref h p) d) (done (deref h p))
                         = deref h p)
    by (intros d; now destruct (deref h p)).
  split; [|split].
  - apply (H3 (done (deref h p) ++ [task])).
  - intros q Hq. now rewrite !deref_assign_other.
  - cbn. now destruct (deref h p).
Qed.

Lemma tick_then_untick_restores_witness :
  let r := {| complete := false; done := ["Milk"]; id := 7;
              tasks := ["Milk"; "Eggs"]; time := 1000;
              title := "Groceries" |} in
  let h : heap := fun _ => r in
  let c := Checklist.mount (Some 0%nat) "view" h in
  let first := Checklist.completeTask "Eggs" c h in
  let second :=
    Checklist.completeTask "Eggs" (fst (fst first)) (snd (fst first)) in
  done (deref (snd (fst first)) 0%nat) = ["Milk"; "Eggs"] /\
  deref (snd (fst second)) 0%nat = r.
Proof.
  cbv zeta. split; [reflexivity|].
  match goal with
  | |- deref (snd (fst (Checklist.completeTask ?t _ _))) ?p = _ =>
      refine (proj1 (tick_then_untick_restores t
                       (Checklist.mount (Some p) "view" _) _ p _ _ _))
  end.
  - reflexivity.
  - discriminate.
  - cbv. intros [H|[]]. discriminate.
Defined.

(** X4.  One tick of a non-empty task changes the number shown after
    Tasks left by exactly one: it goes down by one when the task was
    open and up by one when the task was done. *)
Theorem tick_changes_tasks_left_by_one
        (task : string) (c : Checklist.component) (h : heap) (p : ref) :
  Checklist.state_data c = Some p ->
  task <> "" ->
  let r := deref h p in
  let r' := deref (snd (fst (Checklist.completeTask task c h))) p in
  Landing.tasksLeft r' =
    if JS.includes (done r) task
    then Landing.tasksLeft r + 1
    else Landing.tasksLeft r - 1.
Proof.
  intros Hp Ht. cbv zeta.
  rewrite (completeTask_result task c h p Hp). cbn [fst snd].
  rewrite deref_assign_same. unfold Landing.tasksLeft, toggled.
  cbn [tasks done set_done]. apply JSFacts.nonEmpty_true in Ht.
  rewrite Ht, andb_true_r.
  destruct (JS.includes (done (deref h p)) task) eqn:E.
  - unfold JS.includes in E. unfold removeFirst.
    pose proof (removeFirstBy_length _ _ E). lia.
  - rewrite length_app. cbn [List.length]. lia.
Qed.

Lemma tick_changes_tasks_left_by_one_witness :
  let r := {| complete := false; done := ["Milk"]; id := 7;
              tasks := ["Milk"; "Eggs"]; time := 1000;
              title := "Groceries" |} in
  let h : heap := fun _ => r in
  let c := Checklist.mount (Some 0%nat) "view" h in
  Landing.tasksLeft r = 1 /\
  Landing.tasksLeft
    (deref (snd (fst (Checklist.completeTask "Eggs" c h))) 0%nat) = 0 /\
  Landing.tasksLeft
    (deref (snd (fst (Checklist.completeTask "Milk" c h))) 0%nat) = 2.
Proof.
  cbv zeta. split; [reflexivity|]. split.
  - match goal with
    | |- Landing.tasksLeft
           (deref (snd (fst (Checklist.completeTask ?t ?c ?h))) ?p) = _ =>
        rewrite (tick_changes_tasks_left_by_one t c h p eq_refl)
    end; [reflexivity|discriminate].
  - match goal with
    | |- Landing.tasksLeft
           (deref (snd (fst (Checklist.completeTask ?t ?c ?h))) ?p) = _ =>
        rewrite (tick_changes_tasks_left_by_one t c h p eq_refl)
    end; [reflexivity|discriminate].
Defined.

Lemma request_nonEmpty
      (e : Session.event) (c : Checklist.component) (task : string) :
  Session.request e c = Some (Session.CompleteTask task) -> task <> "".
Proof.
  destruct e as [|n text|n]; cbn [Session.request].
  - destruct (Checklist.rendersEdit c); discriminate.
  - destruct (nth_error (Checklist.state_inputElements c) n) as [el|];
      [|discriminate].
    destruct (Input.editMode (Input.mode el) && Input.isRemovable el);
      discriminate.
  - destruct (nth_error (Checklist.state_inputElements c) n) as [el|];
      [|discriminate].
    destruct (Input.editMode (Input.mode el)); [discriminate|].
    unfold Input.completeTask, Input.valueTruthy.
    destruct (Input.onComplete el); cbn [andb]; [|discriminate].
    destruct (Input.value el) as [v|]; cbn [JS.truthy]; [|discriminate].
    destruct (JS.nonEmpty v) eqn:E; [|discriminate].
    intros H. injection H as <-. now apply JSFacts.nonEmpty_true.
Qed.

Lemma step_NoDup
      (op : Session.operation) (c : Checklist.component) (h : heap) (p : ref) :
  Checklist.state_data c = Some p ->
  NoDup (done (deref h p)) ->
  (forall task, op = Session.CompleteTask task -> task <> "") ->
  NoDup (done (deref (snd (fst (Session.step op c h))) p)).
Proof.
  intros Hp Hd Hop. destruct op as [focus|id task|task]; cbn [Session.step].
  - exact Hd.
  - destruct (removeInput_result id task c h p Hp) as [_ [_ [Hr _]]].
    cbv zeta in Hr.
    destruct (Checklist.removeInput id task c h) as [c' h'].
    cbn [fst snd] in *. rewrite Hr. cbn [done set_done].
    destruct (prunes c); [|assumption]. now apply removeFirstBy_NoDup.
  - rewrite (completeTask_result task c h p Hp). cbn [fst snd].
    rewrite deref_assign_same. cbn [done set_done].
    apply toggled_NoDup; [|assumption]. now apply Hop.
Qed.

Lemma handleAll_NoDup
      (events : list Session.event) (c : Checklist.component) (h : heap)
      (p : ref) :
  Checklist.state_data c = Some p ->
  checkboxesWithin c (tasks (deref h p)) ->
  incl (done (deref h p)) (tasks (deref h p)) ->
  NoDup (done (deref h p)) ->
  NoDup (done (deref (snd (fst (Session.handleAll events c h))) p)).
Proof.
  revert c h. induction events as [|e events IH];
    intros c h Hp Hc Hincl Hd.
  - exact Hd.
  - cbn [Session.handleAll]. unfold Session.handle.
    destruct (Session.request e c) as [op|] eqn:Er.
    + destruct (step_preserves op c h p Hp Hincl) as [Hs [Ht Hi]].
      { intros task ->. eapply request_complete; eassumption. }
      pose proof (step_checkboxes op c h _ Hc) as Hc'.
      assert (Hn := step_NoDup op c h p Hp Hd).
      cbv zeta in Hs, Ht, Hi.
      destruct (Session.step op c h) as [[c1 h1] es1]. cbn [fst snd] in *.
      rewrite <- Ht in Hi, Hc'.
      assert (Hn1 : NoDup (done (deref h1 p))).
      { apply Hn. intros task ->. eapply request_nonEmpty, Er. }
      specialize (IH c1 h1 Hs Hc' Hi Hn1).
      destruct (Session.handleAll events c1 h1) as [[c2 h2] es2].
      exact IH.
    + specialize (IH c h Hp Hc Hincl Hd).
      destruct (Session.handleAll events c h) as [[c2 h2] es2].
      exact IH.
Qed.

(** X5.  When the done tasks of a record are distinct and all among its
    tasks, they stay distinct through any session on its checklist, in
    either mode, and the number shown after Tasks left stays between
    zero and the number of tasks. *)
Theorem tasks_left_stays_in_range
        (p : ref) (mode : string) (events : list Session.event) (h : heap) :
  incl (done (deref h p)) (tasks (deref h p)) ->
  NoDup (done (deref h p)) ->
  let r' := deref (Session.session p mode events h) p in
  NoDup (done r') /\
  0 <= Landing.tasksLeft r' <= Z.of_nat (List.length (tasks (deref h p))).
Proof.
  intros Hincl Hd. cbv zeta. unfold Session.session.
  destruct (mount_checkboxes p mode h) as [Hp Hc]. cbv zeta in Hp, Hc.
  pose proof (handleAll_NoDup events _ h p Hp Hc Hincl Hd) as Hn.
  destruct (handleAll_preserves events _ h p Hp Hc Hincl) as [Hi Ht].
  cbv zeta in Hi, Ht. split; [exact Hn|].
  unfold Landing.tasksLeft. rewrite Ht.
  pose proof (NoDup_incl_length Hn Hi) as Hlen. rewrite Ht in Hlen. lia.
Qed.

Lemma tasks_left_stays_in_range_witness :
  let r := {| complete := false; done := ["Milk"]; id := 7;
              tasks := ["Milk"; "Eggs"]; time := 1000;
              title := "Groceries" |} in
  let h : heap := fun _ => r in
  let ticks := [ Session.ClickCheckbox 1; Session.ClickCheckbox 0;
                 Session.ClickCheckbox 1; Session.ClickCheckbox 0 ] in
  let r' := deref (Session.session 0%nat "view" ticks h) 0%nat in
  done r' = ["Milk"] /\
  NoDup (done r') /\ 0 <= Landing.tasksLeft r' <= 2.
Proof.
  cbv zeta. split; [reflexivity|].
  match goal with
  | |- NoDup (done (deref (Session.session ?p ?m ?evs ?h) _)) /\ _ =>
      refine (tasks_left_stays_in_range p m evs h _ _)
  end.
  - intros x [<-|[]]. now left.
  - repeat constructor. intros [].
Defined.

(* ===================================================================== *)
(** ** Removing inputs and the ids of new inputs *)
(* ===================================================================== *)

(** The inputs and the counter that [removeInput] leaves, whatever the
    component holds as data. *)
Lemma removeInput_inputs
      (id : Z) (task : string) (c : Checklist.component) (h : heap) :
  let c' := fst (Checklist.removeInput id task c h) in
  Checklist.state_inputElements c' =
    (if removable c
     then filter (fun elem => negb (Input.id elem =? id))
                 (Checklist.state_inputElements c)
     else Checklist.state_inputElements c) /\
  Checklist.createdInputs c' =
    (if removable c
     then Z.max 1 (Checklist.createdInputs c - 1)
     else Checklist.createdInputs c) /\
  Checklist.props_mode c' = Checklist.props_mode c /\
  Checklist.title c' = Checklist.title c /\
  Checklist.state_titleTouched c' = Checklist.state_titleTouched c.
Proof.
  cbv zeta. unfold Checklist.removeInput, removable.
  destruct (1 <? Z.of_nat (List.length (Checklist.state_inputElements c))).
  - assert (Hmax : (if Checklist.createdInputs c - 1 <? 1 then 1
                    else Checklist.createdInputs c - 1)
                   = Z.max 1 (Checklist.createdInputs c - 1)).
    { destruct (Checklist.createdInputs c - 1 <? 1) eqn:E;
        [apply Z.ltb_lt in E|apply Z.ltb_ge in E]; lia. }
    rewrite Hmax.
    destruct (Checklist.focusAddButton _);
      [cbn [Checklist.with_inputs Checklist.state_data];
       destruct (Checklist.state_data c) as [p|];
       [destruct (JS.includes (done (deref h p)) task)|]|];
      cbn; repeat split; reflexivity.
  - cbn. repeat split; reflexivity.
Qed.

Lemma filter_ids {A : Type} (f : A -> Z) (id : Z) (l : list A) :
  map f (filter (fun x => negb (f x =? id)) l) =
  filter (fun i => negb (i =? id)) (map f l).
Proof.
  induction l as [|x l IH]; cbn [filter map]; [reflexivity|].
  destruct (negb (f x =? id)); cbn [map]; now rewrite IH.
Qed.

Lemma filter_other_ids {A : Type} (f : A -> Z) (id : Z) (l : list A) :
  ~ In id (map f l) -> filter (fun x => negb (f x =? id)) l = l.
Proof.
  induction l as [|x l IH]; cbn [filter map In]; [reflexivity|].
  intros H. destruct (f x =? id) eqn:E.
  - apply Z.eqb_eq in E. tauto.
  - cbn [negb]. f_equal. apply IH. tauto.
Qed.

Lemma filter_NoDup {A : Type} (keep : A -> bool) (l : list A) :
  NoDup l -> NoDup (filter keep l).
Proof.
  induction 1 as [|x l Hx Hl IH]; cbn [filter]; [constructor|].
  destruct (keep x); [|assumption]. constructor; [|assumption].
  intros Hin. apply filter_In in Hin. tauto.
Qed.

Lemma filter_one_out (id : Z) (l : list Z) :
  NoDup l -> In id l ->
  S (List.length (filter (fun i => negb (i =? id)) l)) = List.length l.
Proof.
  induction 1 as [|x l Hx Hl IH]; cbn [filter In List.length]; [tauto|].
  intros [->|Hin].
  - rewrite Z.eqb_refl. cbn [negb].
    now rewrite (filter_other_ids (fun i => i) id l) by now rewrite map_id.
  - destruct (x =? id) eqn:E; [apply Z.eqb_eq in E; subst; tauto|].
    cbn [negb List.length]. now rewrite IH.
Qed.

(** X6.  While the inputs shown have distinct ids and there are at
    least two of them, the remove button of an input takes out that
    input and no other: the inputs before and after it stay, in order,
    and their ids are still distinct. *)
Theorem removeInput_takes_out_one_input
        (task : string) (c : Checklist.component) (h : heap)
        (before after : list Input.Props) (el : Input.Props) :
  Checklist.state_inputElements c = before ++ el :: after ->
  NoDup (shownIds c) ->
  before ++ after <> [] ->
  let c' := fst (Checklist.removeInput (Input.id el) task c h) in
  Checklist.state_inputElements c' = before ++ after /\
  NoDup (shownIds c').
Proof.
  intros Hs Hn Hmore. cbv zeta.
  destruct (removeInput_inputs (Input.id el) task c h) as [Hi _].
  cbv zeta in Hi. unfold shownIds in *. rewrite Hi.
  assert (Hr : removable c = true).
  { unfold removable. rewrite Hs, length_app. cbn [List.length].
    apply Z.ltb_lt. destruct before, after; cbn [List.length app] in *;
      try congruence; lia. }
  rewrite Hr, Hs in *. rewrite map_app in Hn. cbn [map] in Hn.
  pose proof (NoDup_remove_2 _ _ _ Hn) as Hout.
  pose proof (NoDup_remove_1 _ _ _ Hn) as Hrest.
  rewrite filter_app. cbn [filter]. rewrite Z.eqb_refl. cbn [negb].
  rewrite !filter_other_ids.
  - split; [reflexivity|]. now rewrite map_app.
  - intros Hin. apply Hout, in_or_app. now right.
  - intros Hin. apply Hout, in_or_app. now left.
Qed.

Lemma removeInput_takes_out_one_input_witness :
  let r := {| complete := false; done := ["Milk"]; id := 7;
              tasks := ["Milk"; "Eggs"; "Tea"]; time := 1000;
              title := "Groceries" |} in
  let h : heap := fun _ => r in
  let c := Checklist.mount (Some 0%nat) "edit" h in
  map Input.defaultValue
    (Checklist.state_inputElements
       (fst (Checklist.removeInput 2 "Eggs" c h))) = ["Milk"; "Tea"].
Proof.
  cbv zeta.
  match goal with
  | |- context [Checklist.removeInput _ ?t ?c ?h] =>
      pose proof (removeInput_takes_out_one_input t c h
                    [nth 0 (Checklist.state_inputElements c)
                         (Input.mkProps 0 0 None "" false None false false)]
                    [nth 2 (Checklist.state_inputElements c)
                         (Input.mkProps 0 0 None "" false None false false)]
                    (nth 1 (Checklist.state_inputElements c)
                         (Input.mkProps 0 0 None "" false None false false))
                    eq_refl) as H
  end.
  cbv zeta in H. destruct H as [H _].
  - repeat constructor; cbn; intuition discriminate.
  - discriminate.
  - change (Input.id _) with 2 in H. rewrite H. reflexivity.
Defined.

Lemma filter_kept_member (k x : Z) (l : list Z) :
  In x l -> x <> k -> In x (filter (fun i => negb (i =? k)) l).
Proof.
  intros Hin Hne. apply filter_In. split; [assumption|].
  destruct (x =? k) eqn:E; [apply Z.eqb_eq in E; contradiction|reflexivity].
Qed.

(** X7.  The id of a removed input is not retired: in an edit form
    opened on a record of [n >= 2] tasks, after the input of a task
    other than the last is removed, the next input added gets the id
    [n], which the input of the last task still carries.  The ids shown
    are then no longer distinct, and the remove button of the new input
    takes out the input of the last task with it, leaving [n - 2]
    inputs. *)
Theorem removed_id_is_reused
        (p : ref) (h : heap) (k : Z) (task : string) :
  let n := List.length (tasks (deref h p)) in
  1 <= k < Z.of_nat n ->
  let c := Checklist.mount (Some p) "edit" h in
  let removed := Checklist.removeInput k task c h in
  let c' := Checklist.createInput true (fst removed) in
  let c'' := fst (Checklist.removeInput (Z.of_nat n) "" c' (snd removed)) in
  shownIds c' =
    filter (fun i => negb (i =? k)) (countFrom 1 n) ++ [Z.of_nat n] /\
  In (Z.of_nat n) (filter (fun i => negb (i =? k)) (countFrom 1 n)) /\
  ~ NoDup (shownIds c') /\
  List.length (Checklist.state_inputElements c'') = (n - 2)%nat.
Proof.
  cbv zeta. intros Hk.
  set (n := List.length (tasks (deref h p))) in *.
  destruct (mount_inputs p "edit" h) as [Hi [Hc _]]. cbv zeta in Hi, Hc.
  set (c := Checklist.mount (Some p) "edit" h) in *.
  assert (Hids : shownIds c = countFrom 1 n)
    by (unfold shownIds; rewrite Hi; apply inputsFor_ids).
  assert (Hlen : List.length (Checklist.state_inputElements c) = n).
  { rewrite <- (length_map Input.id). fold (shownIds c).
    rewrite Hids. apply countFrom_length. }
  assert (Hr : removable c = true)
    by (unfold removable; rewrite Hlen; apply Z.ltb_lt; lia).
  destruct (removeInput_inputs k task c h) as [Hi1 [Hc1 _]].
  cbv zeta in Hi1, Hc1. rewrite Hr in Hi1, Hc1.
  destruct (Checklist.removeInput k task c h) as [c1 h1]. cbn [fst snd] in *.
  assert (Hids1 : shownIds c1 = filter (fun i => negb (i =? k)) (countFrom 1 n)).
  { unfold shownIds. rewrite Hi1, filter_ids. fold (shownIds c).
    now rewrite Hids. }
  assert (Hlast : In (Z.of_nat n)
                     (filter (fun i => negb (i =? k)) (countFrom 1 n))).
  { apply filter_kept_member; [apply countFrom_bounds|]; lia. }
  assert (Hids2 : shownIds (Checklist.createInput true c1) =
                  filter (fun i => negb (i =? k)) (countFrom 1 n)
                  ++ [Z.of_nat n]).
  { unfold shownIds, Checklist.createInput.
    cbn [Checklist.with_inputs Checklist.state_inputElements].
    rewrite map_app. fold (shownIds c1). rewrite Hids1. cbn [map Input.id].
    f_equal. f_equal. rewrite Hc1, Hc. fold n. lia. }
  split; [exact Hids2|]. split; [exact Hlast|]. split.
  - rewrite Hids2. intros Hn.
    apply (NoDup_remove_2 _ _ _ Hn). now rewrite app_nil_r.
  - set (c2 := Checklist.createInput true c1) in *.
    assert (Hlen1 : S (List.length (shownIds c1)) = n).
    { rewrite Hids1, filter_one_out.
      - apply countFrom_length.
      - apply countFrom_NoDup.
      - apply countFrom_bounds. lia. }
    assert (Hr2 : removable c2 = true).
    { unfold removable. rewrite <- (length_map Input.id). fold (shownIds c2).
      rewrite Hids2, length_app, <- Hids1. cbn [List.length].
      apply Z.ltb_lt. lia. }
    destruct (removeInput_inputs (Z.of_nat n) "" c2 h1) as [Hi3 _].
    cbv zeta in Hi3. rewrite Hr2 in Hi3. rewrite Hi3.
    rewrite <- (length_map Input.id), filter_ids. fold (shownIds c2).
    rewrite Hids2, filter_app. cbn [filter]. rewrite Z.eqb_refl.
    cbn [negb]. rewrite app_nil_r.
    assert (Hout : S (List.length
                        (filter (fun i => negb (i =? Z.of_nat n))
                           (filter (fun i => negb (i =? k)) (countFrom 1 n))))
                   = List.length (shownIds c1)).
    { rewrite Hids1. apply filter_one_out; [|exact Hlast].
      apply filter_NoDup, countFrom_NoDup. }
    lia.
Qed.

Lemma removed_id_is_reused_witness :
  let r := {| complete := false; done := []; id := 7;
              tasks := ["Milk"; "Eggs"]; time := 1000;
              title := "Groceries" |} in
  let h : heap := fun _ => r in
  let c := Checklist.mount (Some 0%nat) "edit" h in
  let removed := Checklist.removeInput 1 "Milk" c h in
  let c' := Checklist.createInput true (fst removed) in
  let c'' := fst (Checklist.removeInput 2 "" c' (snd removed)) in
  shownIds c' = [2; 2] /\ Checklist.state_inputElements c'' = [].
Proof.
  cbv zeta. split.
  - match goal with
    | |- shownIds (Checklist.createInput true
                     (fst (Checklist.removeInput ?k ?t
                             (Checklist.mount (Some ?p) _ ?h) _))) = _ =>
        refine (proj1 (removed_id_is_reused p h k t _))
    end.
    cbn. lia.
  - reflexivity.
Defined.

(* ===================================================================== *)
(** ** Sessions in view mode and in edit mode *)
(* ===================================================================== *)

(** No operation on the inputs touches the title, its touched flag, the
    mode or the props. *)
Lemma step_keeps_form
      (op : Session.operation) (c : Checklist.component) (h : heap) :
  let c' := fst (fst (Session.step op c h)) in
  Checklist.title c' = Checklist.title c /\
  Checklist.state_titleTouched c' = Checklist.state_titleTouched c /\
  Checklist.props_mode c' = Checklist.props_mode c.
Proof.
  cbv zeta. destruct op as [focus|id task|task]; cbn [Session.step].
  - cbn. tauto.
  - destruct (removeInput_inputs id task c h) as [_ [_ [Hm [Ht Hf]]]].
    cbv zeta in Hm, Ht, Hf.
    destruct (Checklist.removeInput id task c h) as [c' h'].
    cbn [fst] in *. tauto.
  - unfold Checklist.completeTask.
    destruct (Checklist.state_data c); cbn; tauto.
Qed.

Lemma handleAll_keeps_form
      (events : list Session.event) (c : Checklist.component) (h : heap) :
  let c' := fst (fst (Session.handleAll events c h)) in
  Checklist.title c' = Checklist.title c /\
  Checklist.state_titleTouched c' = Checklist.state_titleTouched c /\
  Checklist.props_mode c' = Checklist.props_mode c.
Proof.
  revert c h. induction events as [|e events IH]; intros c h; cbv zeta.
  - cbn. tauto.
  - cbn [Session.handleAll]. unfold Session.handle.
    destruct (Session.request e c) as [op|].
    + pose proof (step_keeps_form op c h) as Hs. cbv zeta in Hs.
      destruct (Session.step op c h) as [[c1 h1] es1]. cbn [fst] in Hs.
      specialize (IH c1 h1). cbv zeta in IH.
      destruct (Session.handleAll events c1 h1) as [[c2 h2] es2].
      cbn [fst] in *. destruct Hs as [H1 [H2 H3]], IH as [I1 [I2 I3]].
      repeat split; congruence.
    + specialize (IH c h). cbv zeta in IH.
      destruct (Session.handleAll events c h) as [[c2 h2] es2].
      exact IH.
Qed.

(** X8.  A form opened without a record has an empty title, and adding
    or removing task inputs does not change that: whatever is done to
    the inputs, the form shows no title error, and saving it issues
    nothing (no write, no refresh, no message), whatever the inputs
    hold. *)
Theorem untitled_form_is_not_saved
        (mode : string) (events : list Session.event) (h : heap)
        (inputs : list string) (env : Add.environment) :
  let c := fst (fst (Session.handleAll events
                       (Checklist.mount None mode h) h)) in
  Checklist.title c = "" /\
  Checklist.titleHasError c = false /\
  Add.saveChecklist (Some c) inputs env = [].
Proof.
  cbv zeta.
  destruct (handleAll_keeps_form events (Checklist.mount None mode h) h)
    as [Ht [Hf _]].
  cbv zeta in Ht, Hf. unfold Checklist.titleHasError, Add.saveChecklist.
  rewrite Ht, Hf. cbn. tauto.
Qed.

Lemma last_cons {A : Type} (x d : A) (l : list A) :
  last (x :: l) d = last l x.
Proof.
  revert x d. induction l as [|y l IH]; intros x d; [reflexivity|].
  change (last (x :: y :: l) d) with (last (y :: l) d).
  rewrite (IH y d). symmetry. apply IH.
Qed.

Lemma writes_app (es es' : list effect) :
  writes (es ++ es') = writes es ++ writes es'.
Proof. unfold writes. apply flat_map_app. Qed.

Lemma handleAll_view
      (events : list Session.event) (c : Checklist.component) (h : heap)
      (p : ref) :
  Checklist.state_data c = Some p ->
  Checklist.rendersEdit c = false ->
  Forall (fun el => Input.editMode (Input.mode el) = false)
         (Checklist.state_inputElements c) ->
  let result := Session.handleAll events c h in
  let h' := snd (fst result) in
  Checklist.state_inputElements (fst (fst result)) =
    Checklist.state_inputElements c /\
  snd result =
    map (fun w => StorageSet (fst w) (snd w)) (writes (snd result)) /\
  Forall (fun w => fst w = JS.toString (id (deref h p)) /\
                   tasks (snd w) = tasks (deref h p))
         (writes (snd result)) /\
  last (map snd (writes (snd result))) (deref h p) = deref h' p /\
  (forall q, q <> p -> deref h' q = deref h q).
Proof.
  revert c h. induction events as [|e events IH];
    intros c h Hp Hv Hm; cbv zeta.
  - cbn. repeat split; try reflexivity. constructor.
  - cbn [Session.handleAll]. unfold Session.handle.
    assert (Hnone :
      forall op, Session.request e c = Some op ->
                 exists task, op = Session.CompleteTask task).
    { destruct e as [|n text|n]; cbn [Session.request]; intros op.
      - rewrite Hv. discriminate.
      - destruct (nth_error (Checklist.state_inputElements c) n) as [el|]
          eqn:E; [|discriminate].
        rewrite Forall_forall in Hm.
        rewrite (Hm el (nth_error_In _ _ E)). discriminate.
      - destruct (nth_error (Checklist.state_inputElements c) n) as [el|];
          [|discriminate].
        destruct (Input.editMode (Input.mode el)); [discriminate|].
        destruct (Input.completeTask el) as [t|]; [|discriminate].
        intros H. injection H as <-. now exists t. }
    destruct (Session.request e c) as [op|].
    + destruct (Hnone op eq_refl) as [task ->]. cbn [Session.step].
      rewrite (completeTask_result task c h p Hp).
      set (r1 := set_done (deref h p) (toggled task (done (deref h p)))).
      specialize (IH (Checklist.with_state_data c (Some p))
                     (assign h p r1) eq_refl Hv Hm).
      cbv zeta in IH. rewrite deref_assign_same in IH.
      destruct (Session.handleAll events _ (assign h p r1))
        as [[c2 h2] es2].
      cbn [fst snd] in *. destruct IH as [I1 [I2 [I3 [I4 I5]]]].
      split; [exact I1|]. split; [|split; [|split]].
      * cbn [app writes flat_map map fst snd]. f_equal. exact I2.
      * cbn [app writes flat_map]. constructor; [now split|exact I3].
      * cbn [app writes flat_map map snd]. rewrite last_cons. exact I4.
      * intros q Hq. rewrite (I5 q Hq). now apply deref_assign_other.
    + specialize (IH c h Hp Hv Hm). cbv zeta in IH.
      destruct (Session.handleAll events c h) as [[c2 h2] es2].
      exact IH.
Qed.

Lemma mount_modes (p : ref) (mode : string) (h : heap) :
  let c := Checklist.mount (Some p) mode h in
  Forall (fun el => Input.mode el = mode) (Checklist.state_inputElements c).
Proof.
  cbv zeta. destruct (mount_inputs p mode h) as [Hi _]. cbv zeta in Hi.
  rewrite Hi. apply Forall_forall. intros el Hin.
  apply inputsFor_props in Hin. destruct Hin as [task [_ [_ [_ [_ [Hm _]]]]]].
  exact Hm.
Qed.

(** X9.  In view mode (any mode other than edit) a session never
    changes the inputs shown and produces nothing but storage writes,
    all under the id of the record and all with its tasks; the last of
    them holds the record as it is in memory at the end, and if there
    was none the record is unchanged.  No other record is touched. *)
Theorem view_session_keeps_storage_in_step
        (p : ref) (mode : string) (events : list Session.event) (h : heap) :
  Input.editMode mode = false ->
  let c := Checklist.mount (Some p) mode h in
  let result := Session.handleAll events c h in
  let h' := snd (fst result) in
  Checklist.state_inputElements (fst (fst result)) =
    Checklist.state_inputElements c /\
  snd result =
    map (fun w => StorageSet (fst w) (snd w)) (writes (snd result)) /\
  Forall (fun w => fst w = JS.toString (id (deref h p)) /\
                   tasks (snd w) = tasks (deref h p))
         (writes (snd result)) /\
  last (map snd (writes (snd result))) (deref h p) = deref h' p /\
  (forall q, q <> p -> deref h' q = deref h q).
Proof.
  intros Hmode. cbv zeta.
  destruct (mount_inputs p mode h) as [_ [_ [Hm [Hp _]]]].
  cbv zeta in Hm, Hp.
  apply handleAll_view; [exact Hp| |].
  - unfold Checklist.rendersEdit. now rewrite Hm.
  - pose proof (mount_modes p mode h) as Hall. cbv zeta in Hall.
    eapply Forall_impl; [|exact Hall]. cbv beta. now intros el ->.
Qed.

Lemma view_session_keeps_storage_in_step_witness :
  let r := {| complete := false; done := ["Milk"]; id := 7;
              tasks := ["Milk"; "Eggs"]; time := 1000;
              title := "Groceries" |} in
  let h : heap := fun _ => r in
  let c := Checklist.mount (Some 0%nat) "view" h in
  let events := [ Session.ClickCheckbox 1; Session.ClickAdd;
                  Session.ClickRemove 0 "Milk"; Session.ClickCheckbox 0 ] in
  let result := Session.handleAll events c h in
  map fst (writes (snd result)) = ["7"; "7"] /\
  done (deref (snd (fst result)) 0%nat) = ["Eggs"] /\
  last (map snd (writes (snd result))) r = deref (snd (fst result)) 0%nat.
Proof.
  cbv zeta. split; [reflexivity|]. split; [reflexivity|].
  match goal with
  | |- context [Session.handleAll ?evs (Checklist.mount (Some ?p) ?m ?h) _] =>
      pose proof (view_session_keeps_storage_in_step p m evs h eq_refl) as H
  end.
  cbv zeta in H. destruct H as [_ [_ [_ [H _]]]]. exact H.
Defined.

Lemma handleAll_edit
      (events : list Session.event) (c : Checklist.component) (h : heap)
      (p : ref) :
  Checklist.state_data c = Some p ->
  Checklist.rendersEdit c = true ->
  Forall (fun el => Input.editMode (Input.mode el) = true)
         (Checklist.state_inputElements c) ->
  let result := Session.handleAll events c h in
  let h' := snd (fst result) in
  snd result = [] /\
  (exists d, deref h' p = set_done (deref h p) d /\
             incl d (done (deref h p))) /\
  (forall q, q <> p -> deref h' q = deref h q).
Proof.
  revert c h. induction events as [|e events IH];
    intros c h Hp He Hm; cbv zeta.
  - cbn [Session.handleAll fst snd]. split; [reflexivity|]. split.
    + exists (done (deref h p)). split; [now rewrite set_done_same|].
      apply incl_refl.
    + reflexivity.
  - cbn [Session.handleAll]. unfold Session.handle.
    assert (Hnone :
      forall op, Session.request e c = Some op ->
                 forall task, op <> Session.CompleteTask task).
    { destruct e as [|n text|n]; cbn [Session.request]; intros op.
      - destruct (Checklist.rendersEdit c); [|discriminate].
        intros H. injection H as <-. discriminate.
      - destruct (nth_error (Checklist.state_inputElements c) n) as [el|];
          [|discriminate].
        destruct (Input.editMode (Input.mode el) && Input.isRemovable el);
          [|discriminate].
        intros H. injection H as <-. discriminate.
      - destruct (nth_error (Checklist.state_inputElements c) n) as [el|]
          eqn:E; [|discriminate].
        rewrite Forall_forall in Hm.
        rewrite (Hm el (nth_error_In _ _ E)). discriminate. }
    destruct (Session.request e c) as [op|].
    + specialize (Hnone op eq_refl).
      destruct op as [focus|id task|task]; cbn [Session.step].
      * assert (Hm1 : Forall (fun el => Input.editMode (Input.mode el) = true)
                        (Checklist.state_inputElements
                           (Checklist.createInput focus c))).
        { cbn. apply Forall_app. split; [exact Hm|].
          constructor; [exact He|constructor]. }
        specialize (IH (Checklist.createInput focus c) h Hp He Hm1).
        cbv zeta in IH.
        destruct (Session.handleAll events _ h) as [[c2 h2] es2].
        exact IH.
      * destruct (removeInput_result id task c h p Hp) as [Hs [Hi [Hr Ho]]].
        destruct (removeInput_inputs id task c h) as [_ [_ [Hmode _]]].
        cbv zeta in Hs, Hi, Hr, Ho, Hmode.
        destruct (Checklist.removeInput id task c h) as [c1 h1].
        cbn [fst snd] in *.
        assert (Hm1 : Forall (fun el => Input.editMode (Input.mode el) = true)
                        (Checklist.state_inputElements c1)).
        { rewrite Hi. destruct (removable c); [|exact Hm].
          apply Forall_forall. intros el Hin. apply filter_In in Hin.
          rewrite Forall_forall in Hm. now apply Hm. }
        assert (He1 : Checklist.rendersEdit c1 = true)
          by (unfold Checklist.rendersEdit in *; now rewrite Hmode).
        specialize (IH c1 h1 Hs He1 Hm1). cbv zeta in IH.
        destruct (Session.handleAll events c1 h1) as [[c2 h2] es2].
        cbn [fst snd app] in *. destruct IH as [I1 [[d [I2 I3]] I4]].
        split; [exact I1|]. split.
        -- exists d. rewrite I2. rewrite Hr in I3 |- *.
           split; [reflexivity|].
           cbn [done set_done] in I3. eapply incl_tran; [exact I3|].
           destruct (prunes c); [|apply incl_refl].
           apply JSFacts.removeFirstBy_incl.
        -- intros q Hq. rewrite (I4 q Hq). now apply Ho.
      * now destruct (Hnone task).
    + specialize (IH c h Hp He Hm). cbv zeta in IH.
      destruct (Session.handleAll events c h) as [[c2 h2] es2].
      exact IH.
Qed.

(** X10.  In edit mode a session writes nothing to storage and calls
    nothing back, whatever is clicked; in memory it changes at most the
    [done] array of the record, which can only lose entries, and no
    other record.  So what the remove buttons drop from [done] reaches
    storage only with a later save. *)
Theorem edit_session_writes_nothing
        (p : ref) (events : list Session.event) (h : heap) :
  let result :=
    Session.handleAll events (Checklist.mount (Some p) "edit" h) h in
  let h' := snd (fst result) in
  snd result = [] /\
  (exists d, deref h' p = set_done (deref h p) d /\
             incl d (done (deref h p))) /\
  (forall q, q <> p -> deref h' q = deref h q).
Proof.
  cbv zeta.
  destruct (mount_inputs p "edit" h) as [_ [_ [Hm [Hp _]]]].
  cbv zeta in Hm, Hp.
  apply handleAll_edit; [exact Hp| |].
  - unfold Checklist.rendersEdit. now rewrite Hm.
  - pose proof (mount_modes p "edit" h) as Hall. cbv zeta in Hall.
    eapply Forall_impl; [|exact Hall]. cbv beta. now intros el ->.
Qed.

(* ===================================================================== *)
(** ** The id of a new checklist *)
(* ===================================================================== *)



(* ===================================================================== *)
(** ** The landing data and the messages of the [App] *)
(* ===================================================================== *)

Lemma findIndex_split {A : Type} (pred : A -> bool) (l : list A) :
  existsb pred l = true ->
  exists before x after,
    l = before ++ x :: after /\ pred x = true /\
    (forall y, In y before -> pred y = false) /\
    JS.findIndex pred l = Z.of_nat (List.length before).
Proof.
  induction l as [|x l IH]; cbn [existsb JS.findIndex]; [discriminate|].
  destruct (pred x) eqn:Px; cbn [orb].
  - intros _. exists [], x, l. cbn. repeat split; [assumption|tauto].
  - intros H. destruct (IH H) as [before [y [after [-> [Py [Hb Hi]]]]]].
    exists (x :: before), y, after. cbn [app List.length In].
    repeat split; [assumption| |].
    + intros z [<-|Hz]; [assumption|now apply Hb].
    + rewrite Hi. destruct (Z.of_nat (List.length before) <? 0) eqn:E;
        [apply Z.ltb_lt in E|]; lia.
Qed.

Lemma findIndex_at {A : Type} (pred : A -> bool)
      (before after : list A) (x : A) :
  (forall y, In y before -> pred y = false) -> pred x = true ->
  JS.findIndex pred (before ++ x :: after) = Z.of_nat (List.length before).
Proof.
  intros Hb Hx. induction before as [|y before IH];
    cbn [app JS.findIndex List.length].
  - now rewrite Hx.
  - rewrite (Hb y) by now left. rewrite IH by (intros z Hz; apply Hb; now right).
    destruct (Z.of_nat (List.length before) <? 0) eqn:E;
      [apply Z.ltb_lt in E|]; lia.
Qed.

Lemma at_index_middle {A : Type} (before after : list A) (x : A) :
  JS.at_index (before ++ x :: after) (Z.of_nat (List.length before)) = Some x.
Proof.
  unfold JS.at_index.
  destruct (Z.of_nat (List.length before) <? 0) eqn:E;
    [apply Z.ltb_lt in E; lia|].
  rewrite Nat2Z.id. clear E.
  induction before as [|y before IH]; [reflexivity|exact IH].
Qed.

Lemma spliceReplace_middle {A : Type} (before after : list A) (x y : A) :
  App.spliceReplace (Z.of_nat (List.length before)) y (before ++ x :: after)
  = before ++ y :: after.
Proof.
  unfold App.spliceReplace.
  destruct (Z.of_nat (List.length before) <? 0) eqn:E;
    [apply Z.ltb_lt in E; lia|].
  rewrite Nat2Z.id. clear E.
  induction before as [|z before IH]; [reflexivity|].
  cbn [List.length firstn skipn app] in *. now rewrite IH.
Qed.

Lemma updateLandingData_present
      (data old : ChecklistData) (before after : list ChecklistData) :
  (forall r, In r before -> id r <> id data) ->
  id old = id data ->
  App.updateLandingData (Some data) (before ++ old :: after) =
  Some (before ++ data :: after).
Proof.
  intros Hb Ho. unfold App.updateLandingData. cbv zeta.
  rewrite (findIndex_at _ before after old).
  - now rewrite at_index_middle, spliceReplace_middle.
  - intros y Hy. apply Z.eqb_neq. now apply Hb.
  - now apply Z.eqb_eq.
Qed.

Lemma updateLandingData_absent
      (data : ChecklistData) (landingData : list ChecklistData) :
  (forall r, In r landingData -> id r <> id data) ->
  App.updateLandingData (Some data) landingData = Some (landingData ++ [data]).
Proof.
  intros Hb. unfold App.updateLandingData. cbv zeta.
  rewrite JSFacts.findIndex_absent; [reflexivity|].
  destruct (existsb _ landingData) eqn:E; [|reflexivity].
  apply existsb_exists in E. destruct E as [r [Hin Hr]].
  apply Z.eqb_eq in Hr. now destruct (Hb r Hin).
Qed.

(** Either a first record of the list has the id of [data], or none
    has. *)
Lemma landing_id_cases
      (data : ChecklistData) (landingData : list ChecklistData) :
  (exists before old after,
     landingData = before ++ old :: after /\
     id old = id data /\
     (forall r, In r before -> id r <> id data)) \/
  (forall r, In r landingData -> id r <> id data).
Proof.
  destruct (existsb (fun current => id current =? id data) landingData)
    eqn:E.
  - left. destruct (findIndex_split _ _ E)
      as [before [old [after [-> [Ho [Hb _]]]]]].
    apply Z.eqb_eq in Ho. exists before, old, after.
    repeat split; [assumption|].
    intros r Hr. apply Z.eqb_neq. now apply Hb.
  - right. intros r Hr Heq.
    assert (Ht : existsb (fun current => id current =? id data) landingData
                 = true)
      by (apply existsb_exists; exists r; split;
          [assumption|now apply Z.eqb_eq]).
    congruence.
Qed.

(** X12.  [updateLandingData] with a record either overwrites, where it
    stands, the first record of the landing list that has the same id,
    or, when no record has that id, adds the record at the end; every
    other record keeps its place. *)
Theorem updateLandingData_replaces_or_appends
        (data : ChecklistData) (landingData : list ChecklistData) :
  (exists before old after,
     landingData = before ++ old :: after /\
     id old = id data /\
     (forall r, In r before -> id r <> id data) /\
     App.updateLandingData (Some data) landingData =
       Some (before ++ data :: after)) \/
  ((forall r, In r landingData -> id r <> id data) /\
   App.updateLandingData (Some data) landingData =
     Some (landingData ++ [data])).
Proof.
  destruct (landing_id_cases data landingData)
    as [[before [old [after [-> [Ho Hb]]]]]|Hb].
  - left. exists before, old, after. repeat split; try assumption.
    now apply updateLandingData_present.
  - right. split; [exact Hb|]. now apply updateLandingData_absent.
Qed.

(** X13.  When the records of the landing list have distinct ids,
    they still have after [updateLandingData] with a record: the list
    then holds that record and exactly the former records of another
    id. *)
Theorem updateLandingData_keeps_ids_distinct
        (data : ChecklistData) (landingData : list ChecklistData) :
  NoDup (map id landingData) ->
  exists landingData',
    App.updateLandingData (Some data) landingData = Some landingData' /\
    NoDup (map id landingData') /\
    forall r, In r landingData' <->
              r = data \/ (In r landingData /\ id r <> id data).
Proof.
  intros Hn.
  destruct (landing_id_cases data landingData)
    as [[before [old [after [-> [Ho Hb]]]]]|Hb].
  - exists (before ++ data :: after).
    split; [now apply updateLandingData_present|].
    rewrite map_app in *. cbn [map] in *. rewrite Ho in Hn.
    split; [exact Hn|].
    pose proof (NoDup_remove_2 _ _ _ Hn) as Hout.
    intros r. rewrite !in_app_iff. cbn [In]. split.
    + intros [H|[H|H]].
      * right. split; [tauto|]. now apply Hb.
      * left. now symmetry.
      * right. split; [tauto|]. intros Heq. apply Hout, in_or_app. right.
        rewrite <- Heq. now apply in_map.
    + intros [->|[[H|[H|H]] Hne]]; try tauto. subst r. congruence.
  - exists (landingData ++ [data]).
    split; [now apply updateLandingData_absent|]. split.
    + rewrite map_app. cbn [map]. apply NoDup_snoc; [assumption|].
      intros Hin. apply in_map_iff in Hin. destruct Hin as [r [Hr Hin]].
      now destruct (Hb r Hin).
    + intros r. rewrite in_app_iff. cbn [In]. split.
      * intros [H|[H|[]]]; [right; split; [assumption|now apply Hb]|].
        left. now symmetry.
      * intros [->|[H _]]; tauto.
Qed.

Lemma updateLandingData_keeps_ids_distinct_witness :
  let a := {| complete := false; done := []; id := 1; tasks := ["Milk"];
              time := 1000; title := "Groceries" |} in
  let b := {| complete := false; done := []; id := 2; tasks := ["Paint"];
              time := 2000; title := "House" |} in
  let a' := {| complete := true; done := ["Milk"]; id := 1;
               tasks := ["Milk"]; time := 1000; title := "Groceries" |} in
  App.updateLandingData (Some a') [a; b] = Some [a'; b] /\
  exists landingData',
    App.updateLandingData (Some a') [a; b] = Some landingData' /\
    NoDup (map id landingData') /\
    forall r, In r landingData' <->
              r = a' \/ (In r [a; b] /\ id r <> id a').
Proof.
  cbv zeta. split; [reflexivity|].
  refine (updateLandingData_keeps_ids_distinct _ _ _).
  repeat constructor; cbn; intuition discriminate.
Defined.

Lemma shown_messages (ms queue : list string) :
  fold_left (fun q m => App.showMessage m q) ms queue = queue ++ ms.
Proof.
  revert queue. induction ms as [|m ms IH]; intros queue; cbn [fold_left].
  - now rewrite app_nil_r.
  - rewrite IH. unfold App.showMessage, JS.push. now rewrite <- app_assoc.
Qed.

Lemma dispatched_skipn (k : nat) (messages : list string) :
  dispatched k messages = skipn k messages.
Proof.
  revert messages. induction k as [|k IH]; intros messages; [reflexivity|].
  cbn [dispatched]. rewrite IH. destruct messages; [|reflexivity].
  cbn [App.removeMessage]. now destruct k.
Qed.

(** X14.  Messages leave the queue of the [App] in the order in which
    they were shown: after the messages [ms] are shown on top of a queue
    and [k] of them are dispatched, what waits is the queue followed by
    [ms], less its first [k] entries.  Dispatching from an empty queue
    does nothing. *)
Theorem messages_are_dispatched_in_order
        (queue ms : list string) (k : nat) :
  dispatched k (fold_left (fun q m => App.showMessage m q) ms queue) =
    skipn k (queue ++ ms) /\
  dispatched k [] = [].
Proof.
  rewrite !dispatched_skipn, shown_messages. split; [reflexivity|].
  now destruct k.
Qed.

(** X15.  On the landing slide the left and the right arrow key do the
    same: from either of the two tabs they lead to the other one, so
    pressing a key twice returns to the tab, and from any index they
    lead to one of the two tabs.  Any other key leaves the state as it
    is, and no key touches the dialog. *)
Theorem arrow_keys_switch_between_the_two_tabs
        (key : string) (st : Landing.state) :
  let st' := Landing.switchActiveTab key st in
  Landing.dialogActive st' = Landing.dialogActive st /\
  Landing.dialogId st' = Landing.dialogId st /\
  Landing.dialogUseKeyboard st' = Landing.dialogUseKeyboard st /\
  (key = "ArrowLeft" \/ key = "ArrowRight" ->
   (Landing.activeTab st' = 0 \/ Landing.activeTab st' = 1) /\
   (0 <= Landing.activeTab st <= 1 ->
    Landing.activeTab st' = 1 - Landing.activeTab st /\
    Landing.switchActiveTab key st' = st)) /\
  (key <> "ArrowLeft" -> key <> "ArrowRight" -> st' = st).
Proof.
  cbv zeta. destruct st as [tab active id keyboard].
  split; [reflexivity|]. split; [reflexivity|]. split; [reflexivity|].
  split.
  - intros Hkey.
    assert (Hstep : forall t a i kb,
      Landing.switchActiveTab key (Landing.mkState t a i kb) =
      Landing.mkState (if 0 <? t then 0 else 1) a i kb).
    { intros t a i kb. unfold Landing.switchActiveTab, Landing.setActiveTab.
      cbn [Landing.dialogActive Landing.dialogId Landing.dialogUseKeyboard
           Landing.activeTab].
      destruct Hkey as [->| ->].
      - now rewrite String.eqb_refl.
      - change (String.eqb "ArrowRight" "ArrowLeft") with false.
        rewrite String.eqb_refl. cbv beta iota. f_equal.
        destruct (t <? 1) eqn:E1, (0 <? t) eqn:E2;
          first [apply Z.ltb_lt in E1|apply Z.ltb_ge in E1];
          first [apply Z.ltb_lt in E2|apply Z.ltb_ge in E2]; lia. }
    rewrite !Hstep. cbn [Landing.activeTab]. split.
    + destruct (0 <? tab); tauto.
    + intros Htab. destruct (0 <? tab) eqn:E;
        [apply Z.ltb_lt in E|apply Z.ltb_ge in E].
      * split; [lia|]. change (0 <? 0) with false. cbv iota.
        f_equal. lia.
      * split; [lia|]. change (0 <? 1) with true. cbv iota.
        f_equal. lia.
  - intros Hl Hr. apply String.eqb_neq in Hl, Hr.
    unfold Landing.switchActiveTab, Landing.setActiveTab.
    now rewrite Hl, Hr.
Qed.

Lemma filter_complement_length {A : Type} (f : A -> bool) (l : list A) :
  (List.length (filter (fun x => negb (f x)) l)
   + List.length (filter f l) = List.length l)%nat.
Proof.
  induction l as [|x l IH]; [reflexivity|]. cbn [filter].
  destruct (f x); cbn [negb List.length]; lia.
Qed.

(** X16.  The two tabs of the landing slide split the checklists: every
    checklist is listed on exactly one of them, in the order of the
    landing data, the count on each tab is the length of its list, and
    the two counts add up to the number of checklists. *)
Theorem landing_tabs_split_the_checklists (data : list ChecklistData) :
  List.length (Landing.unfinishedChecklists data) = Landing.openCount data /\
  List.length (Landing.completedChecklists data) =
    Landing.completeCount data /\
  (Landing.openCount data + Landing.completeCount data
   = List.length data)%nat /\
  (forall d, In d data ->
             (In d (Landing.unfinishedChecklists data) /\
              ~ In d (Landing.completedChecklists data)) \/
             (In d (Landing.completedChecklists data) /\
              ~ In d (Landing.unfinishedChecklists data))) /\
  (forall d, In d (Landing.unfinishedChecklists data) \/
             In d (Landing.completedChecklists data) -> In d data).
Proof.
  unfold Landing.unfinishedChecklists, Landing.completedChecklists,
    Landing.openCount, Landing.completeCount.
  assert (Ho : forall l : list ChecklistData,
             filter (fun d => Bool.eqb (complete d) false) l =
             filter (fun d => negb (complete d)) l).
  { intros l. apply filter_ext. intros d. now destruct (complete d). }
  assert (Hc : forall l : list ChecklistData,
             filter (fun d => Bool.eqb (complete d) true) l =
             filter (fun d => complete d) l).
  { intros l. apply filter_ext. intros d. now destruct (complete d). }
  rewrite Ho, Hc. split; [reflexivity|]. split; [reflexivity|]. split.
  - apply (filter_complement_length complete).
  - split.
    + intros d Hd. rewrite !filter_In.
      destruct (complete d); cbn [negb]; [right|left];
        (split; [tauto|intros [_ H]; discriminate]).
    + intros d. rewrite !filter_In. tauto.
Qed.

Lemma receive_save
      (key message : string) (value : ChecklistData)
      (landingData : list ChecklistData) (messages : list string) :
  App.receive [ StorageSet key value; OnRefresh (Some value); OnBack;
                OnMessage message ] landingData messages =
  match App.updateLandingData (Some value) landingData with
  | Some landingData' => Some (landingData', messages ++ [message])
  | None => None
  end.
Proof.
  cbn [App.receive Slide.refresh].
  now destruct (App.updateLandingData (Some value) landingData).
Qed.

Lemma NoDup_ids_before
      (before after : list ChecklistData) (r : ChecklistData) :
  NoDup (map id (before ++ r :: after)) ->
  forall x, In x before -> id x <> id r.
Proof.
  rewrite map_app. cbn [map]. intros Hn x Hx Heq.
  apply (NoDup_remove_2 _ _ _ Hn), in_or_app. left.
  rewrite <- Heq. now apply in_map.
Qed.

(** X17.  Marking a viewed checklist as complete reaches the landing
    slide: with distinct ids on the landing list, the callbacks of the
    [App] put the completed record in the place of the viewed one and
    queue the message, the record is then listed on the Complete tab
    and no longer on the Open tab, and it shows zero tasks left. *)
Theorem completed_checklist_moves_to_the_complete_tab
        (p : ref) (h : heap) (before after : list ChecklistData)
        (messages : list string) :
  let r := deref h p in
  let r' := assign_complete_done r true (tasks r) in
  NoDup (map id (before ++ r :: after)) ->
  App.receive (View.setAsComplete p h) (before ++ r :: after) messages =
    Some (before ++ r' :: after,
          messages ++ ["Checklist set as complete"]) /\
  Landing.completedChecklists (before ++ r' :: after) =
    Landing.completedChecklists before ++
    r' :: Landing.completedChecklists after /\
  Landing.unfinishedChecklists (before ++ r' :: after) =
    Landing.unfinishedChecklists before ++
    Landing.unfinishedChecklists after /\
  Landing.tasksLeft r' = 0.
Proof.
  cbv zeta. intros Hn. unfold View.setAsComplete. rewrite receive_save.
  rewrite updateLandingData_present;
    [|exact (NoDup_ids_before _ _ _ Hn)|reflexivity].
  split; [reflexivity|].
  unfold Landing.completedChecklists, Landing.unfinishedChecklists,
    Landing.tasksLeft.
  rewrite !filter_app. cbn. repeat split. lia.
Qed.

Lemma completed_checklist_moves_to_the_complete_tab_witness :
  let a := {| complete := false; done := []; id := 1;
              tasks := ["Milk"; "Eggs"]; time := 1000;
              title := "Groceries" |} in
  let b := {| complete := false; done := []; id := 2; tasks := ["Paint"];
              time := 2000; title := "House" |} in
  let a' := {| complete := true; done := ["Milk"; "Eggs"]; id := 1;
               tasks := ["Milk"; "Eggs"]; time := 1000;
               title := "Groceries" |} in
  let h : heap := fun _ => a in
  App.receive (View.setAsComplete 0%nat h) [a; b] [] =
    Some ([a'; b], ["Checklist set as complete"]) /\
  Landing.unfinishedChecklists [a'; b] = [b].
Proof.
  cbv zeta. split; [|reflexivity].
  match goal with
  | |- App.receive (View.setAsComplete ?p ?h) (?a :: ?rest) ?ms = _ =>
      refine (proj1 (completed_checklist_moves_to_the_complete_tab
                       p h [] rest ms _))
  end.
  repeat constructor; cbn; intuition discriminate.
Defined.

(** The record that [saveChecklist] builds. *)
Lemma saveChecklist_effects
      (c : Checklist.component) (inputs : list string)
      (env : Add.environment) (uid : Z) :
  Checklist.title c <> "" ->
  filter JS.nonEmpty inputs <> [] ->
  Add.generateUUID env = Some uid ->
  let record := {| complete := false; done := []; id := uid;
                   tasks := filter JS.nonEmpty inputs;
                   time := Add.now_time env;
                   title := Checklist.title c |} in
  Add.saveChecklist (Some c) inputs env =
    [ StorageSet (JS.toString uid) record; OnRefresh (Some record); OnBack;
      OnMessage "Checklist successfully added" ].
Proof.
  intros Ht Hi Hu. cbv zeta. unfold Add.saveChecklist.
  apply JSFacts.nonEmpty_true in Ht. rewrite Ht, Hu.
  destruct (filter JS.nonEmpty inputs); [congruence|reflexivity].
Qed.

(** X18.  A new checklist reaches the landing slide: when the form has
    a title and a non-empty task and the generated id is not yet on the
    landing list, the callbacks of the [App] add the new record at the
    end of the list and queue the message; the record is then the last
    one on the Open tab, the Complete tab is as before, and the record
    shows all its tasks as left. *)
Theorem new_checklist_is_added_to_the_open_tab
        (c : Checklist.component) (inputs : list string)
        (env : Add.environment) (uid : Z)
        (landingData : list ChecklistData) (messages : list string) :
  Checklist.title c <> "" ->
  filter JS.nonEmpty inputs <> [] ->
  Add.generateUUID env = Some uid ->
  ~ In uid (map id landingData) ->
  let record := {| complete := false; done := []; id := uid;
                   tasks := filter JS.nonEmpty inputs;
                   time := Add.now_time env;
                   title := Checklist.title c |} in
  App.receive (Add.saveChecklist (Some c) inputs env) landingData messages =
    Some (landingData ++ [record],
          messages ++ ["Checklist successfully added"]) /\
  Landing.unfinishedChecklists (landingData ++ [record]) =
    Landing.unfinishedChecklists landingData ++ [record] /\
  Landing.completedChecklists (landingData ++ [record]) =
    Landing.completedChecklists landingData /\
  Landing.tasksLeft record =
    Z.of_nat (List.length (filter JS.nonEmpty inputs)).
Proof.
  intros Ht Hi Hu Hfresh. cbv zeta.
  rewrite (saveChecklist_effects c inputs env uid Ht Hi Hu), receive_save.
  rewrite updateLandingData_absent.
  - split; [reflexivity|].
    unfold Landing.completedChecklists, Landing.unfinishedChecklists,
      Landing.tasksLeft.
    rewrite !filter_app. cbn. rewrite app_nil_r. repeat split. lia.
  - intros r Hr Heq. apply Hfresh. cbn [id] in Heq. rewrite <- Heq.
    now apply in_map.
Qed.

Lemma new_checklist_is_added_to_the_open_tab_witness :
  let a := {| complete := true; done := ["Milk"]; id := 1;
              tasks := ["Milk"]; time := 1000; title := "Groceries" |} in
  let env := {| Add.baseArray := [10; 20; 30; 40; 50; 60; 70; 80];
                Add.random := 1 # 2;
                Add.now_uuid := 1000; Add.now_time := 1001 |} in
  let c := Checklist.updateTitle "House" (Checklist.mount None "edit"
                                            (fun _ => a)) in
  let b := {| complete := false; done := []; id := 1040;
              tasks := ["Paint"; "Sand"]; time := 1001;
              title := "House" |} in
  App.receive (Add.saveChecklist (Some c) ["Paint"; ""; "Sand"] env) [a] [] =
    Some ([a; b], ["Checklist successfully added"]).
Proof.
  cbv zeta.
  match goal with
  | |- App.receive (Add.saveChecklist (Some ?c) ?inputs ?env) ?l ?ms = _ =>
      refine (proj1 (new_checklist_is_added_to_the_open_tab
                       c inputs env 1040 l ms _ _ eq_refl _))
  end.
  - discriminate.
  - discriminate.
  - cbn. intuition discriminate.
Defined.

(** X19.  Ids of new checklists are not checked against the existing
    ones: when the generated id is that of a checklist already on the
    landing list, the save writes under the storage key of that
    checklist and the new record takes its place on the landing list,
    so the earlier checklist is gone from both. *)
Theorem new_checklist_with_a_used_id_replaces_the_old_one
        (c : Checklist.component) (inputs : list string)
        (env : Add.environment) (old : ChecklistData)
        (before after : list ChecklistData) (messages : list string) :
  Checklist.title c <> "" ->
  filter JS.nonEmpty inputs <> [] ->
  Add.generateUUID env = Some (id old) ->
  NoDup (map id (before ++ old :: after)) ->
  let record := {| complete := false; done := []; id := id old;
                   tasks := filter JS.nonEmpty inputs;
                   time := Add.now_time env;
                   title := Checklist.title c |} in
  writes (Add.saveChecklist (Some c) inputs env) =
    [(JS.toString (id old), record)] /\
  App.receive (Add.saveChecklist (Some c) inputs env)
              (before ++ old :: after) messages =
    Some (before ++ record :: after,
          messages ++ ["Checklist successfully added"]).
Proof.
  intros Ht Hi Hu Hn. cbv zeta.
  rewrite (saveChecklist_effects c inputs env (id old) Ht Hi Hu).
  split; [reflexivity|]. rewrite receive_save.
  rewrite updateLandingData_present;
    [reflexivity|exact (NoDup_ids_before _ _ _ Hn)|reflexivity].
Qed.

Lemma new_checklist_with_a_used_id_replaces_the_old_one_witness :
  let env1 := {| Add.baseArray := [10; 20; 30; 40; 50; 60; 70; 80];
                 Add.random := 1 # 2;
                 Add.now_uuid := 1000; Add.now_time := 1000 |} in
  let env2 := {| Add.baseArray := [10; 20; 30; 35; 50; 60; 70; 80];
                 Add.random := 1 # 2;
                 Add.now_uuid := 1005; Add.now_time := 1005 |} in
  let blank := Checklist.mount None "edit"
                 (fun _ => {| complete := false; done := []; id := 0;
                              tasks := []; time := 0; title := "" |}) in
  let a := {| complete := false; done := []; id := 1040;
              tasks := ["Milk"]; time := 1000; title := "Groceries" |} in
  let b := {| complete := false; done := []; id := 1040;
              tasks := ["Paint"]; time := 1005; title := "House" |} in
  Add.wellFormed env1 /\ Add.wellFormed env2 /\
  App.receive (Add.saveChecklist
                 (Some (Checklist.updateTitle "Groceries" blank))
                 ["Milk"] env1) [] [] =
    Some ([a], ["Checklist successfully added"]) /\
  App.receive (Add.saveChecklist
                 (Some (Checklist.updateTitle "House" blank))
                 ["Paint"] env2) [a] [] =
    Some ([b], ["Checklist successfully added"]).
Proof.
  cbv zeta. split; [|split; [|split; [reflexivity|]]].
  - split; [reflexivity|]. split; [repeat constructor; cbn; lia|].
    split; [discriminate|reflexivity].
  - split; [reflexivity|]. split; [repeat constructor; cbn; lia|].
    split; [discriminate|reflexivity].
  - match goal with
    | |- App.receive (Add.saveChecklist (Some ?c) ?inputs ?env)
                     [?a] ?ms = _ =>
        refine (proj2 (new_checklist_with_a_used_id_replaces_the_old_one
                         c inputs env a [] [] ms _ _ eq_refl _))
    end.
    + discriminate.
    + discriminate.
    + repeat constructor. intros [].
Defined.
